(** * NC public construction bid scraper: model and verified properties

    A shallow embedding of [.github/workflows/nc_bid_scraper.py]
    (class [NCBidScraper]): the fetcher [get_page], the link extractor
    [find_project_links], the per-document step [process_pdf] and the
    orchestration [run], together with the parts of the Python string,
    dict and pandas semantics that these methods rely on.

    A Python [str] is a list of Unicode code points.  White space is the
    fixed set of CPython; lower-casing and the class [\w] follow CPython's
    algorithms over the tables of the Unicode character database, which
    are a parameter ([Tables]); what the proofs need of them is [Lawful].
    Evaluations on concrete inputs, at the end, run with [basic_tables],
    the tables on the Latin and Greek letters. *)

From Stdlib Require Import Ascii String Bool Arith NArith Lia List.
Import ListNotations.

Set Implicit Arguments.

(* ================================================================== *)
(** ** Python strings *)
(* ================================================================== *)

Module PyStr.

(** A code point, and a [str]. *)
Definition char := N.
Definition str := list char.

(** String literals of the script (all of them ASCII). *)
Definition lit (s : string) : str := map N_of_ascii (list_ascii_of_string s).

Definition SP : char := 32%N.
Definition US : char := 95%N.
Definition HY : char := 45%N.
Definition CR : char := 13%N.
Definition LF : char := 10%N.
Definition SLASH : char := 47%N.

(** The capital sigma U+03A3 and its two lower-case forms, the final
    U+03C2 and the ordinary U+03C3. *)
Definition SIGMA : char := 931%N.
Definition FINAL_SIGMA : char := 962%N.
Definition SMALL_SIGMA : char := 963%N.

Definition between (lo hi c : N) : bool := ((lo <=? c) && (c <=? hi))%N.

(** [Py_UNICODE_ISSPACE], used by [str.strip], [str.isspace] and the
    class [\s] of [re] on [str] patterns: U+0009..U+000D, U+001C..U+0020,
    U+0085, U+00A0, U+1680, U+2000..U+200A, U+2028, U+2029, U+202F,
    U+205F and U+3000. *)
Definition isspace (c : char) : bool :=
  between 9 13 c || between 28 32 c || (c =? 133)%N || (c =? 160)%N
  || (c =? 5760)%N || between 8192 8202 c || (c =? 8232)%N || (c =? 8233)%N
  || (c =? 8239)%N || (c =? 8287)%N || (c =? 12288)%N.

(** Lower-casing and the alphanumeric test within ASCII. *)
Definition ascii_lower (c : char) : char :=
  if between 65 90 c then (c + 32)%N else c.

Definition ascii_alnum (c : char) : bool :=
  between 48 57 c || between 65 90 c || between 97 122 c.

(** The tables of the Unicode character database that CPython looks up:
    the full lower-case mapping of a code point
    ([_PyUnicode_ToLowerFull]), the properties Cased and Case_Ignorable
    ([_PyUnicode_IsCased], [_PyUnicode_IsCaseIgnorable]) and the
    alphanumeric test ([Py_UNICODE_ISALNUM]). *)
Class Tables := {
  lower_map : char -> list char;
  cased : char -> bool;
  case_ignorable : char -> bool;
  isalnum : char -> bool
}.

Section Strings.

Context {U : Tables}.

(** The class [\w] of [re] on a [str] pattern: alphanumeric, or the
    underscore. *)
Definition isword (c : char) : bool := isalnum c || (c =? US)%N.

(** The first code point of [s] that is not case-ignorable. *)
Fixpoint skip_ignorable (s : str) : option char :=
  match s with
  | [] => None
  | c :: r => if case_ignorable c then skip_ignorable r else Some c
  end.

(** [handle_capital_sigma]: a capital sigma is in final position when,
    case-ignorable code points skipped, a cased one stands before it and
    none after it.  [before] is the text before the sigma, nearest code
    point first; [after] is the text after it. *)
Definition final_sigma (before after : str) : bool :=
  match skip_ignorable before with
  | Some c =>
      cased c &&
      match skip_ignorable after with
      | Some d => negb (cased d)
      | None => true
      end
  | None => false
  end.

(** [do_lower] on the part [s] of a string, [before] (nearest first) and
    [after] being the rest of the string on either side: every code point
    gives its full lower-case mapping, except the capital sigma, which
    gives one of its two forms by its position. *)
Fixpoint lower_in (before s after : str) : str :=
  match s with
  | [] => []
  | c :: r =>
      (if (c =? SIGMA)%N
       then [if final_sigma before (r ++ after) then FINAL_SIGMA else SMALL_SIGMA]
       else lower_map c)
      ++ lower_in (c :: before) r after
  end.

(** [s.lower()] *)
Definition lower (s : str) : str := lower_in [] s [].

(** [s.replace(a, b)] for one-character [a] and [b]. *)
Definition replace (a b : char) (s : str) : str :=
  map (fun c => if (c =? a)%N then b else c) s.

(** [s.lstrip()], [s.rstrip()] and [s.strip()] with no argument. *)
Fixpoint lstrip (s : str) : str :=
  match s with
  | [] => []
  | c :: r => if isspace c then lstrip r else s
  end.

Definition rstrip (s : str) : str := rev (lstrip (rev s)).

Definition strip (s : str) : str := rstrip (lstrip s).

Definition str_eqb (a b : str) : bool :=
  if list_eq_dec N.eq_dec a b then true else false.

(** [s.startswith(p)] *)
Fixpoint startswith (s p : str) : bool :=
  match p, s with
  | [], _ => true
  | _ :: _, [] => false
  | a :: p', b :: s' => (a =? b)%N && startswith s' p'
  end.

(** [s.endswith(p)] *)
Definition endswith (s p : str) : bool := startswith (rev s) (rev p).

(** [p in s] for strings: [p] occurs as a contiguous substring. *)
Fixpoint contains (s p : str) : bool :=
  startswith s p ||
  match s with
  | [] => false
  | _ :: s' => contains s' p
  end.

(** [re.sub(r'[^\w\s-]', '', s)]: every character outside the class is
    deleted. *)
Definition keep_char (c : char) : bool :=
  isword c || isspace c || (c =? HY)%N.

Definition re_sub_strip (s : str) : str := filter keep_char s.

(** [s[:n]] *)
Definition slice_to (n : nat) (s : str) : str := firstn n s.

End Strings.

(** What the proofs use of the tables.  Within ASCII the tables are the
    ASCII ones.  A lower-case mapping is never empty, and the code points
    it yields are their own lower-case mapping and are not the capital
    sigma; so are the two lower-case sigmas.  White space is uncased, not
    case-ignorable and its own lower case, and lower-casing never turns
    another code point into white space. *)
Class Lawful (U : Tables) : Prop := {
  lower_map_ascii : forall c, (c < 128)%N -> lower_map c = [ascii_lower c];
  isalnum_ascii : forall c, (c < 128)%N -> isalnum c = ascii_alnum c;
  lower_map_nonempty : forall c, lower_map c <> [];
  lower_map_settled :
    forall c c', In c' (lower_map c) -> c' <> SIGMA /\ lower_map c' = [c'];
  lower_map_sigmas :
    lower_map FINAL_SIGMA = [FINAL_SIGMA] /\ lower_map SMALL_SIGMA = [SMALL_SIGMA];
  space_plain :
    forall c, isspace c = true ->
              lower_map c = [c] /\ cased c = false /\ case_ignorable c = false;
  lower_map_black :
    forall c c', isspace c = false -> In c' (lower_map c) -> isspace c' = false
}.

(** The tables on Basic Latin, Latin-1 Supplement, the Greek letters
    U+0391..U+03CB, U+0130 and the combining marks U+0300..U+036F; any
    other code point is taken as caseless and not alphanumeric.  On text
    of these ranges they are the tables of CPython. *)
Definition basic_upper (c : char) : bool :=
  between 65 90 c || between 192 214 c || between 216 222 c
  || between 913 929 c || between 932 939 c.

Definition basic_letter (c : char) : bool :=
  between 65 90 c || between 97 122 c
  || (c =? 170)%N || (c =? 181)%N || (c =? 186)%N
  || between 192 214 c || between 216 246 c || between 248 255 c
  || (c =? 304)%N || between 913 929 c || between 931 971 c.

Definition basic_tables : Tables :=
  {| lower_map := fun c =>
       if (c =? 304)%N then [105; 775]%N
       else if (c =? SIGMA)%N then [SMALL_SIGMA]
       else if basic_upper c then [(c + 32)%N]
       else [c];
     cased := basic_letter;
     case_ignorable := fun c =>
       (c =? 39)%N || (c =? 46)%N || (c =? 58)%N || (c =? 94)%N || (c =? 96)%N
       || (c =? 168)%N || (c =? 173)%N || (c =? 175)%N || (c =? 180)%N
       || (c =? 183)%N || (c =? 184)%N || between 768 879 c;
     isalnum := fun c =>
       between 48 57 c || basic_letter c
       || (c =? 178)%N || (c =? 179)%N || (c =? 185)%N || between 188 190 c |}.

End PyStr.

Import PyStr.

Section Model.

Context {U : Tables}.

(* ================================================================== *)
(** ** Column headers and file names of [process_pdf] *)
(* ================================================================== *)

(** The list comprehension body of line 105:
    [str(col).lower().replace('\r', ' ').replace('\n', ' ').strip().replace(' ', '_')]
    (on a label that already is a string, [str] is the identity). *)
Definition clean_column (col : str) : str :=
  replace SP US (strip (replace LF SP (replace CR SP (lower col)))).

(** Line 85, the name below [raw_dir]:
    [re.sub(r'[^\w\s-]', '', name)[:100].replace(' ', '_') + '.pdf'] *)
Definition pdf_file_name (name : str) : str :=
  replace SP US (slice_to 100 (re_sub_strip name)) ++ lit ".pdf".

(** *** The spec's wording, for comparison *)

(** "lower-case, whitespace-collapsed, underscore-joined tokens": the
    words of the lower-cased header, joined by one underscore each. *)
Fixpoint words_acc (cur : str) (s : str) : list str :=
  match s with
  | [] => match cur with [] => [] | _ => [rev cur] end
  | c :: r =>
      if isspace c
      then match cur with
           | [] => words_acc [] r
           | _ => rev cur :: words_acc [] r
           end
      else words_acc (c :: cur) r
  end.

Fixpoint join_with (sep : char) (ws : list str) : str :=
  match ws with
  | [] => []
  | [w] => w
  | w :: rest => w ++ sep :: join_with sep rest
  end.

Definition spec_collapsed_header (col : str) : str :=
  join_with US (words_acc [] (lower col)).

(** "strip all characters other than word characters, whitespace, and
    hyphens; truncate to 100 characters; replace spaces with underscores;
    append .pdf", one character at a time. *)
Fixpoint spec_stem (budget : nat) (name : str) : str :=
  match name with
  | [] => []
  | c :: r =>
      if keep_char c then
        match budget with
        | 0 => []
        | S b => (if (c =? SP)%N then US else c) :: spec_stem b r
        end
      else spec_stem budget r
  end.

Definition spec_file_name (name : str) : str :=
  spec_stem 100 name ++ lit ".pdf".

(* ================================================================== *)
(** ** The world the scraper runs in *)
(* ================================================================== *)

(** A [requests.Response]: only the status line and the body are used. *)
Record Response := { status_code : nat; content : str }.

(** What [session.get] does: it returns a response or raises a
    [requests.RequestException] (connection error, timeout, ...). *)
Inductive GetOutcome :=
| Responded (r : Response)
| RequestException.

(** [response.raise_for_status()] raises [HTTPError], a
    [RequestException], exactly for the 4xx and 5xx codes. *)
Definition raise_for_status (r : Response) : bool :=
  (400 <=? status_code r) && (status_code r <? 600).

(** Truth value of a response ([Response.__bool__] is [ok], which is
    "[raise_for_status] does not raise"). *)
Definition truthy (r : Response) : bool := negb (raise_for_status r).

(** An [<a>] element of the parsed page: its [href] attribute when it has
    one, and its text nodes in document order. *)
Record Anchor := { href : option str; strings : list str }.

(** A cell of a table. *)
Inductive Cell :=
| CStr (s : str)
| CInt (n : nat)
| CTime (t : nat)
| NaN.

(** A [pandas.DataFrame]: column labels and rows, every row with one
    cell per label. *)
Record DataFrame := { columns : list str; rows : list (list Cell) }.

(** The collaborators outside the script.  [http_get n url] is the
    outcome of the [n]-th GET of the process when sent to [url];
    [soup_anchors] is [BeautifulSoup(content, 'lxml')] restricted to its
    [a] elements, in document order; [tabula_read_pdf] is
    [tabula.read_pdf] on the bytes of the file, [None] when it raises;
    [now n] is the [n]-th reading of [datetime.now()].  [urljoin] is
    [urllib.parse.urljoin] where it returns: a target on which it raises
    [ValueError], and a failure of the file system when a document or the
    output table is written, end the run with an exception and are not
    part of this model. *)
Record Env := {
  http_get : nat -> str -> GetOutcome;
  soup_anchors : str -> list Anchor;
  urljoin : str -> str -> str;
  tabula_read_pdf : str -> option (list DataFrame);
  now : nat -> nat
}.

Inductive Level := Info | Warning | Error.

Inductive Message :=
| AttemptFailed (attempt : nat) (url : str)
| Searching (page_url : str)
| FoundLinks (n : nat)
| Processing (name : str)
| NoTables (file : str)
| Extracted (n : nat) (file : str)
| TabulaFailed (file : str)
| UniqueFound (n : nat)
| Saved (rows : nat) (stamp : nat)
| NoData.

Inductive Event :=
| Sleep (seconds : nat)
| Get (url : str)
| Log (level : Level) (m : Message).

(** The mutable part: the scraper object and the file system below
    [nc_data], with the trace of what has been done so far. *)
Record State := {
  requests : nat;
  clock_reads : nat;
  trace : list Event;
  raw_pdfs : list (str * str);
  all_bids : list DataFrame;
  processed_data : list (nat * DataFrame)
}.

(** [NCBidScraper.__init__], with the directories below [nc_data] in
    place and empty (the script does not create them; writing a file is
    taken to succeed). *)
Definition init : State :=
  {| requests := 0; clock_reads := 0; trace := []; raw_pdfs := [];
     all_bids := []; processed_data := [] |}.

Definition base_urls : list str :=
  map lit
    [ "https://ncadmin.nc.gov/businesses/construction/projects-design-advertised-bidding";
      "https://connect.ncdot.gov/letting/Pages/default.aspx";
      "https://www.mecknc.gov/Finance/Procurement/Pages/Solicitations.aspx";
      "https://www.wake.gov/departments-government/finance/business-inclusion-procurement/solicitation-opportunities";
      "https://www.charlottenc.gov/Businesses/Business-Inclusion/Vendor-Management";
      "https://raleighnc.gov/doing-business/bids-and-proposals";
      "https://www.cmsk12.org/en-US/doing-business/solicitations" ]%string.

Definition emit (e : Event) (s : State) : State :=
  {| requests := requests s; clock_reads := clock_reads s;
     trace := trace s ++ [e]; raw_pdfs := raw_pdfs s;
     all_bids := all_bids s; processed_data := processed_data s |}.

Definition logging (l : Level) (m : Message) (s : State) : State :=
  emit (Log l m) s.

(** [time.sleep(delay)] *)
Definition sleep (delay : nat) (s : State) : State := emit (Sleep delay) s.

(** [self.session.get(url, timeout=45)] *)
Definition session_get (E : Env) (url : str) (s : State) : GetOutcome * State :=
  (http_get E (requests s) url,
   {| requests := S (requests s); clock_reads := clock_reads s;
      trace := trace s ++ [Get url]; raw_pdfs := raw_pdfs s;
      all_bids := all_bids s; processed_data := processed_data s |}).

(** [datetime.now()] *)
Definition datetime_now (E : Env) (s : State) : nat * State :=
  (now E (clock_reads s),
   {| requests := requests s; clock_reads := S (clock_reads s);
      trace := trace s; raw_pdfs := raw_pdfs s;
      all_bids := all_bids s; processed_data := processed_data s |}).

(** A Python [dict] with string keys: insertion-ordered; assigning to a
    key that is present replaces the value where the key stands. *)
Fixpoint dict_set {V : Type} (k : str) (v : V) (d : list (str * V)) : list (str * V) :=
  match d with
  | [] => [(k, v)]
  | (k', v') :: d' =>
      if str_eqb k' k then (k', v) :: d' else (k', v') :: dict_set k v d'
  end.

Fixpoint dict_get {V : Type} (k : str) (d : list (str * V)) : option V :=
  match d with
  | [] => None
  | (k', v') :: d' => if str_eqb k' k then Some v' else dict_get k d'
  end.

Definition dict_values {V : Type} (d : list (str * V)) : list V := map snd d.

(** [open(pdf_path, 'wb').write(bytes)]: creates or overwrites. *)
Definition write_raw (file bytes : str) (s : State) : State :=
  {| requests := requests s; clock_reads := clock_reads s;
     trace := trace s; raw_pdfs := dict_set file bytes (raw_pdfs s);
     all_bids := all_bids s; processed_data := processed_data s |}.

(** [self.all_bids.append(df)] *)
Definition append_bid (df : DataFrame) (s : State) : State :=
  {| requests := requests s; clock_reads := clock_reads s;
     trace := trace s; raw_pdfs := raw_pdfs s;
     all_bids := all_bids s ++ [df]; processed_data := processed_data s |}.

(** [final_df.to_csv(output_path, index=False)] with the path stamped. *)
Definition to_csv (stamp : nat) (df : DataFrame) (s : State) : State :=
  {| requests := requests s; clock_reads := clock_reads s;
     trace := trace s; raw_pdfs := raw_pdfs s;
     all_bids := all_bids s; processed_data := processed_data s ++ [(stamp, df)] |}.

(* ================================================================== *)
(** ** [get_page] *)
(* ================================================================== *)

(** The [for attempt in range(retries)] loop, over the attempts that are
    left.  The [except] clause logs and, on the last attempt, returns
    [None]; falling out of the loop returns [None] too. *)
Fixpoint get_page_loop (E : Env) (url : str) (retries delay : nat)
    (attempts : list nat) (s : State) : option Response * State :=
  match attempts with
  | [] => (None, s)
  | attempt :: rest =>
      let s1 := sleep delay s in
      let '(out, s2) := session_get E url s1 in
      let failed :=
        let s3 := logging Warning (AttemptFailed (attempt + 1) url) s2 in
        if attempt =? retries - 1 then (None, s3)
        else get_page_loop E url retries delay rest s3 in
      match out with
      | Responded r => if raise_for_status r then failed else (Some r, s2)
      | RequestException => failed
      end
  end.

Definition get_page (E : Env) (url : str) (retries delay : nat) (s : State)
  : option Response * State :=
  get_page_loop E url retries delay (seq 0 retries) s.

(** The defaults of the signature, [retries=3, delay=2]. *)
Definition default_retries : nat := 3.
Definition default_delay : nat := 2.

Definition get_page_default (E : Env) (url : str) (s : State) :=
  get_page E url default_retries default_delay s.

(* ================================================================== *)
(** ** [find_project_links] *)
(* ================================================================== *)

Record ProjectLink := { name : str; url : str; source : str }.

Definition keywords : list str :=
  map lit ["bid"; "tabulation"; "letting"; "award"; "solicitation"; "project"]%string.

(** [link.get_text(strip=True)]: every text node stripped, the empty ones
    skipped, the rest joined with nothing between them. *)
Definition get_text_strip (a : Anchor) : str :=
  List.concat (filter (fun t => negb (str_eqb t [])) (map strip (strings a))).

(** [soup.find_all('a', href=True)] *)
Definition has_href (a : Anchor) : bool :=
  match href a with Some _ => true | None => false end.

Definition find_all_a_href (soup : list Anchor) : list Anchor :=
  filter has_href soup.

(** [link['href']], read on elements that [find_all] returned. *)
Definition link_href (a : Anchor) : str :=
  match href a with Some h => h | None => [] end.

(** The condition of line 71. *)
Definition wanted (a : Anchor) : bool :=
  existsb (fun keyword => contains (lower (get_text_strip a)) keyword) keywords
  && endswith (lower (link_href a)) (lit ".pdf").

Definition find_project_links (E : Env) (page_url : str) (s : State)
  : list ProjectLink * State :=
  let s0 := logging Info (Searching page_url) s in
  let '(response, s1) := get_page_default E page_url s0 in
  match response with
  | None => ([], s1)
  | Some r =>
      if negb (truthy r) then ([], s1)
      else
        let links := find_all_a_href (soup_anchors E (content r)) in
        let project_links :=
          fold_left
            (fun acc link =>
               if wanted link
               then acc ++ [ {| name := get_text_strip link;
                                url := urljoin E page_url (link_href link);
                                source := page_url |} ]
               else acc)
            links [] in
        (project_links, logging Info (FoundLinks (length project_links)) s1)
  end.

(* ================================================================== *)
(** ** Data frames *)
(* ================================================================== *)

Definition mem (c : str) (l : list str) : bool := existsb (str_eqb c) l.

(** [df.empty]: some axis has length zero. *)
Definition df_empty (df : DataFrame) : bool :=
  match rows df, columns df with
  | [], _ => true
  | _, [] => true
  | _, _ => false
  end.

(** One row of [df[label] = scalar] when the label is present: the cell
    under every column carrying the label is replaced. *)
Fixpoint set_labelled (label : str) (v : Cell) (cols : list str) (row : list Cell)
  : list Cell :=
  match cols, row with
  | c :: cols', x :: row' =>
      (if str_eqb c label then v else x) :: set_labelled label v cols' row'
  | _, _ => row
  end.

(** [df[label] = scalar]: an existing column is overwritten in place, a
    new label is appended as the last column. *)
Definition setitem (label : str) (v : Cell) (df : DataFrame) : DataFrame :=
  if mem label (columns df)
  then {| columns := columns df;
          rows := map (set_labelled label v (columns df)) (rows df) |}
  else {| columns := columns df ++ [label];
          rows := map (fun r => r ++ [v]) (rows df) |}.

(** [df.columns = [f(col) for col in df.columns]] *)
Definition rename_columns (f : str -> str) (df : DataFrame) : DataFrame :=
  {| columns := map f (columns df); rows := rows df |}.

Definition provenance_columns : list str :=
  map lit ["project_name"; "source_url"; "pdf_source_file";
           "pdf_table_index"; "scrape_timestamp"]%string.

(** Lines 98 to 105 on one table that passed the test of line 96. *)
Definition annotate (project : ProjectLink) (file : str) (i stamp : nat)
    (df : DataFrame) : DataFrame :=
  let df1 := setitem (lit "project_name") (CStr (name project)) df in
  let df2 := setitem (lit "source_url") (CStr (url project)) df1 in
  let df3 := setitem (lit "pdf_source_file") (CStr file) df2 in
  let df4 := setitem (lit "pdf_table_index") (CInt i) df3 in
  let df5 := setitem (lit "scrape_timestamp") (CTime stamp) df4 in
  rename_columns clean_column df5.

(** The test of line 96; [true] means [continue]. *)
Definition skipped (df : DataFrame) : bool :=
  df_empty df || (length (columns df) <? 2).

(** [for i, df in enumerate(tables)], from index [i] on. *)
Fixpoint collect_tables (E : Env) (project : ProjectLink) (file : str) (i : nat)
    (tables : list DataFrame) (s : State) : State :=
  match tables with
  | [] => s
  | df :: rest =>
      if skipped df then collect_tables E project file (S i) rest s
      else
        let '(stamp, s1) := datetime_now E s in
        collect_tables E project file (S i) rest
          (append_bid (annotate project file i stamp df) s1)
  end.

(* ================================================================== *)
(** ** [process_pdf] *)
(* ================================================================== *)

Definition process_pdf (E : Env) (project : ProjectLink) (s : State) : State :=
  let s0 := logging Info (Processing (name project)) s in
  let '(response, s1) := get_page_default E (url project) s0 in
  match response with
  | None => s1
  | Some r =>
      if negb (truthy r) then s1
      else
        let file := pdf_file_name (name project) in
        let s2 := write_raw file (content r) s1 in
        match dict_get file (raw_pdfs s2) with
        | None => logging Error (TabulaFailed file) s2
        | Some bytes =>
            match tabula_read_pdf E bytes with
            | None => logging Error (TabulaFailed file) s2
            | Some [] => logging Warning (NoTables file) s2
            | Some tables =>
                let s3 := collect_tables E project file 0 tables s2 in
                logging Info (Extracted (length tables) file) s3
            end
        end
  end.

(* ================================================================== *)
(** ** [pandas.concat] *)
(* ================================================================== *)

Inductive Exn :=
| InvalidIndexError
| NoObjectsToConcatenate.

Inductive Result (A : Type) :=
| Ok (a : A)
| Raise (e : Exn).

#[global] Arguments Ok {A} a.
#[global] Arguments Raise {A} e.

(** [Index.unique()]: the first occurrence of every label, in order. *)
Fixpoint first_occurrences (l : list str) : list str :=
  match l with
  | [] => []
  | c :: r => c :: filter (fun x => negb (str_eqb x c)) (first_occurrences r)
  end.

Fixpoint nodupb (l : list str) : bool :=
  match l with
  | [] => true
  | c :: r => negb (mem c r) && nodupb r
  end.

Definition cols_eqb (a b : list str) : bool :=
  if list_eq_dec (list_eq_dec N.eq_dec) a b then true else false.

Definition same_columns (frames : list DataFrame) : bool :=
  match frames with
  | [] => true
  | f :: rest => forallb (fun g => cols_eqb (columns g) (columns f)) rest
  end.

Fixpoint index_of (c : str) (cols : list str) : option nat :=
  match cols with
  | [] => None
  | c' :: cols' =>
      if str_eqb c' c then Some 0
      else match index_of c cols' with
           | Some i => Some (S i)
           | None => None
           end
  end.

(** A row of a frame with labels [cols], laid out under [new_cols]; a
    label the frame does not have gives the missing-value marker. *)
Definition reindex (cols new_cols : list str) (row : list Cell) : list Cell :=
  map (fun c => match index_of c cols with
                | Some i => nth i row NaN
                | None => NaN
                end) new_cols.

Definition union_columns (frames : list DataFrame) : list str :=
  first_occurrences (flat_map columns frames).

(** [pd.concat(frames, ignore_index=True)], rows below rows, outer join
    on the labels.  Frames that all carry the same label list are stacked
    as they are.  Otherwise every frame is re-laid under the union of the
    labels, which pandas refuses ([InvalidIndexError], "Reindexing only
    valid with uniquely valued Index objects") for a frame in which a
    label is repeated. *)
Definition concat (frames : list DataFrame) : Result DataFrame :=
  match frames with
  | [] => Raise NoObjectsToConcatenate
  | f :: _ =>
      if same_columns frames
      then Ok {| columns := columns f; rows := flat_map rows frames |}
      else if forallb (fun g => nodupb (columns g)) frames
      then let cols := union_columns frames in
           Ok {| columns := cols;
                 rows := flat_map (fun g => map (reindex (columns g) cols) (rows g))
                           frames |}
      else Raise InvalidIndexError
  end.

(* ================================================================== *)
(** ** [run] *)
(* ================================================================== *)

(** How a call of [run] ends. *)
Inductive Outcome :=
| Returned (s : State)
| Raised (e : Exn) (s : State).

Definition final_state (o : Outcome) : State :=
  match o with
  | Returned s => s
  | Raised _ s => s
  end.

(** Lines 117 and 118: [all_project_links.extend(...)] per seed URL. *)
Fixpoint scan (E : Env) (urls : list str) (all_project_links : list ProjectLink)
    (s : State) : list ProjectLink * State :=
  match urls with
  | [] => (all_project_links, s)
  | u :: rest =>
      let '(found, s1) := find_project_links E u s in
      scan E rest (all_project_links ++ found) s1
  end.

(** Line 120: [{p['url']: p for p in all_project_links}.values()] *)
Definition unique_projects (all_project_links : list ProjectLink) : list ProjectLink :=
  dict_values (fold_left (fun d p => dict_set (url p) p d) all_project_links []).

(** Lines 125 and 126. *)
Fixpoint process_each (E : Env) (projects : list ProjectLink) (s : State) : State :=
  match projects with
  | [] => s
  | p :: rest => process_each E rest (process_pdf E p s)
  end.

(** Lines 128 to 135. *)
Definition write_output (E : Env) (s : State) : Outcome :=
  match all_bids s with
  | [] => Returned (logging Warning NoData s)
  | _ :: _ =>
      match concat (all_bids s) with
      | Raise e => Raised e s
      | Ok final_df =>
          let '(stamp, s1) := datetime_now E s in
          let s2 := to_csv stamp final_df s1 in
          Returned (logging Info (Saved (length (rows final_df)) stamp) s2)
      end
  end.

Definition run (E : Env) (mode : str) (s : State) : Outcome :=
  let urls_to_scan :=
    if str_eqb mode (lit "full") then base_urls else [nth 0 base_urls []] in
  let '(all_project_links, s1) := scan E urls_to_scan [] s in
  let unique := unique_projects all_project_links in
  let s2 := logging Info (UniqueFound (length unique)) s1 in
  let projects_to_process :=
    if str_eqb mode (lit "full") then unique else firstn 5 unique in
  let s3 := process_each E projects_to_process s2 in
  write_output E s3.

(* ================================================================== *)
(** ** Auxiliary notions used in the statements *)
(* ================================================================== *)

(** A string that [strip] leaves alone: no white space at either end. *)
Definition head_ok (s : str) : Prop :=
  match s with
  | [] => True
  | c :: _ => isspace c = false
  end.

Definition stripped (s : str) : Prop := head_ok s /\ head_ok (rev s).


(** The provenance labels that a raw table does not carry yet: the ones
    for which [setitem] appends a column. *)
Definition fresh_labels (cols : list str) : list str :=
  filter (fun l => negb (mem l cols)) provenance_columns.

(** No raw header is, as it stands, one of the five provenance labels. *)
Definition no_clash (df : DataFrame) : Prop :=
  forall l, In l provenance_columns -> ~ In l (columns df).

(** A 2-column, 3-row table one of whose headers is a provenance label. *)
Definition clash_table : DataFrame :=
  {| columns := [lit "project_name"; lit "amount"];
     rows := [ [CStr (lit "US 70 widening"); CStr (lit "100")];
               [CStr (lit "NC 12 bridge"); CStr (lit "200")];
               [CStr (lit "I-40 paving"); CStr (lit "300")] ] |}.

(** A 2-column, 3-row table with ordinary headers. *)
Definition plain_table : DataFrame :=
  {| columns := [lit "Bidder"; lit "Total Bid"];
     rows := [ [CStr (lit "Acme"); CStr (lit "100")];
               [CStr (lit "Bolt"); CStr (lit "200")];
               [CStr (lit "Core"); CStr (lit "300")] ] |}.

(** Several assignments [df[label] = scalar] in a row. *)
Definition assign_all (lvs : list (str * Cell)) (df : DataFrame) : DataFrame :=
  fold_left (fun d lv => setitem (fst lv) (snd lv) d) lvs df.

(** *** Reading a trace *)

(** An attempt of [get_page] fails when [session.get] raises or the
    status check raises. *)
Definition attempt_fails (o : GetOutcome) : bool :=
  match o with
  | Responded r => raise_for_status r
  | RequestException => true
  end.

(** What one failed attempt and one successful attempt leave behind. *)
Definition failed_attempt (delay : nat) (url : str) (attempt : nat) : list Event :=
  [Sleep delay; Get url; Log Warning (AttemptFailed (attempt + 1) url)].

Definition good_attempt (delay : nat) (url : str) : list Event :=
  [Sleep delay; Get url].

(** Number of GET requests in a trace. *)
Fixpoint gets (t : list Event) : nat :=
  match t with
  | [] => 0
  | Get _ :: r => S (gets r)
  | _ :: r => gets r
  end.

(** Every GET of the trace comes right after a sleep of [delay] seconds. *)
Fixpoint sleeps_first (delay : nat) (t : list Event) : bool :=
  match t with
  | [] => true
  | Get _ :: _ => false
  | Sleep d :: r =>
      match r with
      | Get _ :: r' => (d =? delay) && sleeps_first delay r'
      | _ => sleeps_first delay r
      end
  | Log _ _ :: r => sleeps_first delay r
  end.

(** The pages searched and the documents processed, as logged. *)
Definition searched_page (e : Event) : list str :=
  match e with
  | Log Info (Searching u) => [u]
  | _ => []
  end.

Definition processed_name (e : Event) : list str :=
  match e with
  | Log Info (Processing n) => [n]
  | _ => []
  end.

Definition searched (t : list Event) : list str := flat_map searched_page t.
Definition processed (t : list Event) : list str := flat_map processed_name t.

(** *** The link extractor, in the spec's words *)

Definition occurs_in (p s : str) : Prop := exists pre post, s = pre ++ p ++ post.

Definition ends_with (p s : str) : Prop := exists pre, s = pre ++ p.

(** An anchor that has a target, whose visible text contains a keyword
    when case is ignored, and whose lower-cased target ends in [.pdf]. *)
Definition is_project_anchor (a : Anchor) : Prop :=
  exists target,
    href a = Some target /\
    (exists keyword,
        In keyword keywords /\ occurs_in keyword (lower (get_text_strip a))) /\
    ends_with (lit ".pdf") (lower target).

Definition project_anchor (a : Anchor) : bool := has_href a && wanted a.

(** The entry appended at lines 72 to 76. *)
Definition link_of (E : Env) (page_url : str) (a : Anchor) : ProjectLink :=
  {| name := get_text_strip a;
     url := urljoin E page_url (link_href a);
     source := page_url |}.

(** *** Table acceptance, in the spec's words *)

Definition accepted (df : DataFrame) : bool := negb (skipped df).

(** How a raw table [raw] that passed the test is kept as [st]. *)
Definition stored_as (raw st : DataFrame) : Prop :=
  length (rows st) = length (rows raw) /\
  columns st = map clean_column (columns raw ++ fresh_labels (columns raw)) /\
  (no_clash raw ->
   columns st = map clean_column (columns raw) ++ provenance_columns /\
   length (columns st) = length (columns raw) + 5).

(** The raw tables that [process_pdf] gets from the table extractor for
    a project: none when the download or the extraction fails. *)
Definition extracted_tables (E : Env) (project : ProjectLink) (s : State)
  : list DataFrame :=
  match fst (get_page_default E (url project)
               (logging Info (Processing (name project)) s)) with
  | Some r =>
      match tabula_read_pdf E (content r) with
      | Some tables => tables
      | None => []
      end
  | None => []
  end.

(** A scraper environment in which nothing answers; good enough where
    only the clock is read. *)
Definition silent_env : Env :=
  {| http_get := fun _ _ => RequestException;
     soup_anchors := fun _ => [];
     urljoin := fun _ h => h;
     tabula_read_pdf := fun _ => None;
     now := fun n => n |}.

Definition some_project : ProjectLink :=
  {| name := lit "Bid: Road/Bridge (Final)!!";
     url := lit "https://example.org/files/bid123.pdf";
     source := lit "https://example.org/bids" |}.

(** *** Deduplication, in the spec's words *)

(** The entry seen last among those with URL [u]. *)
Definition last_with_url (u : str) (links : list ProjectLink) : option ProjectLink :=
  find (fun p => str_eqb (url p) u) (rev links).

(** The dict built at line 120, before its values are taken. *)
Definition by_url (links : list ProjectLink) : list (str * ProjectLink) :=
  fold_left (fun d p => dict_set (url p) p d) links [].

(** *** The output table, in the spec's words *)

(** The cell of [row] under label [c], for a frame with labels [cols];
    the missing-value marker when the frame has no such label. *)
Definition cell_under (cols : list str) (row : list Cell) (c : str) : Cell :=
  match index_of c cols with
  | Some i => nth i row NaN
  | None => NaN
  end.

(** The label lists that [concat] can put together: all equal, or each
    without a repeated label. *)
Definition labels_aligned (frames : list DataFrame) : bool :=
  same_columns frames || forallb (fun g => nodupb (columns g)) frames.

Definition total_rows (frames : list DataFrame) : nat :=
  list_sum (map (fun df => length (rows df)) frames).

(** *** A small web for running the scraper *)

Definition seed0 : str := nth 0 base_urls [].
Definition pdf_a : str := lit "https://example.org/files/a.pdf".
Definition pdf_b : str := lit "https://example.org/files/b.pdf".

(** A raw table whose first header reads [Project Name]. *)
Definition named_table : DataFrame :=
  {| columns := [lit "Project Name"; lit "Amount"];
     rows := [ [CStr (lit "US 70 widening"); CStr (lit "100")];
               [CStr (lit "NC 12 bridge"); CStr (lit "200")] ] |}.

(** The first seed page answers and links two PDF documents with one
    table each; every other request fails. *)
Definition demo_env (table_a table_b : DataFrame) : Env :=
  {| http_get := fun _ u =>
       if str_eqb u seed0 then Responded {| status_code := 200; content := lit "seed" |}
       else if str_eqb u pdf_a then Responded {| status_code := 200; content := lit "A" |}
       else if str_eqb u pdf_b then Responded {| status_code := 200; content := lit "B" |}
       else RequestException;
     soup_anchors := fun body =>
       if str_eqb body (lit "seed")
       then [ {| href := Some pdf_a; strings := [lit " 2024 Bid Tabulation "] |};
              {| href := Some (lit "about.html"); strings := [lit "About bids"] |};
              {| href := Some pdf_b; strings := [lit "Award "; lit "letter"] |};
              {| href := None; strings := [lit "Bid anchor"] |} ]
       else [];
     urljoin := fun _ h => h;
     tabula_read_pdf := fun bytes =>
       if str_eqb bytes (lit "A") then Some [table_a]
       else if str_eqb bytes (lit "B") then Some [table_b]
       else None;
     now := fun n => 100 + n |}.

(** The state in which two tables with different, repetition-free
    headers have been collected. *)
Definition two_tables_state : State :=
  collect_tables silent_env some_project (lit "f.pdf") 0
    [plain_table;
     {| columns := [lit "Item"; lit "Unit Price"; lit "Qty"];
        rows := [ [CStr (lit "Asphalt"); CStr (lit "90"); CInt 4] ] |}]
    init.

(** *** Modes, in the spec's words *)

(** One pipeline for both modes: the mode only picks the seed URLs to
    scan and the cap on the documents to process. *)
Definition pipeline (E : Env) (seeds : list str) (cap : option nat) (s : State)
  : Outcome :=
  let '(links, s1) := scan E seeds [] s in
  let unique := unique_projects links in
  let s2 := logging Info (UniqueFound (length unique)) s1 in
  let todo := match cap with
              | Some n => firstn n unique
              | None => unique
              end in
  write_output E (process_each E todo s2).

(** The documents a run works on, given its seeds and cap. *)
Definition documents (E : Env) (seeds : list str) (cap : option nat) (s : State)
  : list ProjectLink :=
  let unique := unique_projects (fst (scan E seeds [] s)) in
  match cap with
  | Some n => firstn n unique
  | None => unique
  end.

(** A reading of the trace that only looks at the two log lines
    "Searching ..." and "Processing PDF: ...". *)
Definition routine (f : Event -> list str) : Prop :=
  (forall d, f (Sleep d) = []) /\
  (forall u, f (Get u) = []) /\
  (forall l m,
      (forall u, m <> Searching u) -> (forall n, m <> Processing n) ->
      f (Log l m) = []).

(* ================================================================== *)
(** ** Further notions for the properties of the whole script *)
(* ================================================================== *)

(** Seconds spent in [time.sleep] along a trace. *)
Fixpoint slept (t : list Event) : nat :=
  match t with
  | [] => 0
  | Sleep d :: r => d + slept r
  | _ :: r => slept r
  end.

(** The attempt numbers of the "Attempt k failed" warnings of a trace. *)
Definition attempt_warning (e : Event) : list nat :=
  match e with
  | Log Warning (AttemptFailed k _) => [k]
  | _ => []
  end.

Definition attempt_warnings (t : list Event) : list nat :=
  flat_map attempt_warning t.

(** From [s] to [s'], [k] requests were sent, each with its two-second
    sleep. *)
Definition paced (k : nat) (s s' : State) : Prop :=
  gets (trace s') = gets (trace s) + k /\
  slept (trace s') = slept (trace s) + default_delay * k /\
  requests s' = requests s + k.

(** A server that fails the first [k] requests and then answers. *)
Definition flaky_env (k : nat) : Env :=
  {| http_get := fun n _ =>
       if n <? k then RequestException
       else Responded {| status_code := 200; content := lit "ok" |};
     soup_anchors := fun _ => [];
     urljoin := fun _ h => h;
     tabula_read_pdf := fun _ => None;
     now := fun n => n |}.

(** A character that may occur in the stem of a stored file name: a word
    character, a hyphen, or white space other than the space itself. *)
Definition file_safe (c : char) : bool :=
  (isword c || isspace c || (c =? HY)%N) && negb ((c =? SP)%N).

(** Two projects whose names differ only in characters that the file
    name drops. *)
Definition project_a : ProjectLink :=
  {| name := lit "Bid: A"; url := pdf_a; source := seed0 |}.

Definition project_b : ProjectLink :=
  {| name := lit "Bid A"; url := pdf_b; source := seed0 |}.

(** A frame in which every row has one cell per label. *)
Definition well_formed (df : DataFrame) : Prop :=
  Forall (fun r => length r = length (columns df)) (rows df).

(** The five cells that [annotate] writes into every row. *)
Definition provenance_cells (project : ProjectLink) (file : str) (i stamp : nat)
  : list Cell :=
  [CStr (name project); CStr (url project); CStr file; CInt i; CTime stamp].

(** A table the acceptance test lets through, and one it does not. *)
Definition one_column_table : DataFrame :=
  {| columns := [lit "Notes"]; rows := [[CStr (lit "n/a")]] |}.

(** Two anchors that differ in case only. *)
Definition shouting_anchor : Anchor :=
  {| href := Some (lit "FILES/BID123.PDF"); strings := [lit " 2024 BID Tabulation "] |}.

Definition quiet_anchor : Anchor :=
  {| href := Some (lit "files/bid123.pdf"); strings := [lit " 2024 bid tabulation "] |}.

(** A server on which every document can be downloaded but none can be
    read by the table extractor. *)
Definition unreadable_env : Env :=
  {| http_get := fun _ _ =>
       Responded {| status_code := 200; content := lit "%PDF" |};
     soup_anchors := fun _ => [];
     urljoin := fun _ h => h;
     tabula_read_pdf := fun _ => None;
     now := fun n => n |}.

(** *** Notions about lower-casing used in the statements *)

(** A code point that lower-casing leaves as it is. *)
Definition settled (c : char) : Prop := c <> SIGMA /\ lower_map c = [c].

(** The two lower-case sigmas taken for one. *)
Definition unsigma (c : char) : char :=
  if (c =? FINAL_SIGMA)%N then SMALL_SIGMA else c.

(** What one code point contributes to a lower-cased string when the two
    sigmas are not told apart. *)
Definition lower_blur (c : char) : str :=
  map unsigma (if (c =? SIGMA)%N then [SMALL_SIGMA] else lower_map c).

(** What [clean_column] and [pdf_file_name] come to on ASCII text. *)
Definition clean_column_ascii (col : str) : str :=
  replace SP US (strip (replace LF SP (replace CR SP (map ascii_lower col)))).

Definition keep_char_ascii (c : char) : bool :=
  (ascii_alnum c || (c =? US)%N) || isspace c || (c =? HY)%N.

Definition pdf_file_name_ascii (name : str) : str :=
  replace SP US (firstn 100 (filter keep_char_ascii name)) ++ lit ".pdf".

Definition is_ascii (s : str) : Prop := forall c, In c s -> (c < 128)%N.

Definition is_asciib (s : str) : bool := forallb (fun c => (c <? 128)%N) s.

(** A pattern in which no lower-case sigma occurs. *)
Definition sigma_free (p : str) : Prop :=
  forall k, In k p -> k <> FINAL_SIGMA /\ k <> SMALL_SIGMA.

(** A character-wise expansion that leaves white space alone and gives
    no white space for anything else. *)
Definition keeps_space (h : char -> str) : Prop :=
  (forall c, isspace c = true -> h c = [c]) /\
  (forall c, isspace c = false ->
             h c <> [] /\ forall d, In d (h c) -> isspace d = false).

End Model.

(* ================================================================== *)
(** ** Facts about the string operations *)
(* ================================================================== *)

Section Verified.

Context {U : Tables} {HU : Lawful U}.

Lemma lstrip_head_ok (s : str) : head_ok (lstrip s).
Proof.
  induction s as [|c r IH]; simpl; [exact I|].
  destruct (isspace c) eqn:Hc; [exact IH | exact Hc].
Qed.

Lemma lstrip_fixed (s : str) : head_ok s -> lstrip s = s.
Proof. destruct s as [|c r]; simpl; [reflexivity|]. now intros ->. Qed.

Lemma lstrip_suffix (s : str) : exists p, s = p ++ lstrip s.
Proof.
  induction s as [|c r [p Hp]]; simpl.
  - now exists [].
  - destruct (isspace c).
    + exists (c :: p). simpl. now f_equal.
    + now exists [].
Qed.

Lemma rstrip_prefix (s : str) : exists q, s = rstrip s ++ q.
Proof.
  destruct (lstrip_suffix (rev s)) as [p Hp].
  exists (rev p). unfold rstrip.
  rewrite <- rev_app_distr, <- Hp. symmetry. apply rev_involutive.
Qed.

Lemma rstrip_head_ok (s : str) : head_ok s -> head_ok (rstrip s).
Proof.
  intros H. destruct (rstrip_prefix s) as [q Hq].
  destruct (rstrip s) as [|c r]; [exact I|].
  rewrite Hq in H. exact H.
Qed.

Lemma strip_stripped (s : str) : stripped (strip s).
Proof.
  split.
  - apply rstrip_head_ok, lstrip_head_ok.
  - unfold strip, rstrip. rewrite rev_involutive. apply lstrip_head_ok.
Qed.

Lemma stripped_fixed (s : str) : stripped s -> strip s = s.
Proof.
  intros [H1 H2]. unfold strip, rstrip.
  rewrite (lstrip_fixed _ H1), (lstrip_fixed _ H2). apply rev_involutive.
Qed.

Lemma head_ok_map (f : char -> char) (s : str) :
  (forall c, isspace c = false -> isspace (f c) = false) ->
  head_ok s -> head_ok (map f s).
Proof. intros Hf. destruct s as [|c r]; simpl; [trivial | apply Hf]. Qed.

Lemma stripped_map (f : char -> char) (s : str) :
  (forall c, isspace c = false -> isspace (f c) = false) ->
  stripped s -> stripped (map f s).
Proof.
  intros Hf [H1 H2]. split.
  - now apply head_ok_map.
  - rewrite <- map_rev. now apply head_ok_map.
Qed.

Lemma stripped_sandwich (a r b : str) :
  a <> [] -> b <> [] ->
  Forall (fun c => isspace c = false) a ->
  Forall (fun c => isspace c = false) b ->
  stripped (a ++ r ++ b).
Proof.
  intros Ha Hb Fa Fb. split.
  - destruct a as [|c a']; [congruence|]. simpl. now inversion Fa.
  - rewrite !rev_app_distr.
    assert (Fb' : Forall (fun c => isspace c = false) (rev b))
      by (apply Forall_rev; exact Fb).
    destruct (rev b) as [|c b'] eqn:Eb.
    + apply (f_equal (@rev char)) in Eb. rewrite rev_involutive in Eb.
      simpl in Eb. congruence.
    + simpl. now inversion Fb'.
Qed.

Lemma In_lstrip (s : str) (c : char) : In c (lstrip s) -> In c s.
Proof.
  destruct (lstrip_suffix s) as [p Hp]. intros H.
  rewrite Hp. apply in_or_app. now right.
Qed.

Lemma In_strip (s : str) (c : char) : In c (strip s) -> In c s.
Proof.
  unfold strip, rstrip. intros H.
  apply in_rev, In_lstrip in H. apply In_lstrip. now apply in_rev.
Qed.

Lemma In_replace (a b : char) (s : str) (c : char) :
  In c (replace a b s) -> c = b \/ (In c s /\ c <> a).
Proof.
  unfold replace. intros H. apply in_map_iff in H.
  destruct H as [c0 [Hc Hin]].
  destruct (N.eqb_spec c0 a) as [Heq|Hne].
  - left. now symmetry.
  - right. rewrite <- Hc. now split.
Qed.

Lemma replace_absent (a b : char) (s : str) :
  (forall c, In c s -> c <> a) -> replace a b s = s.
Proof.
  intros H. unfold replace. rewrite <- (map_id s) at 2.
  apply map_ext_in. intros c Hc.
  destruct (N.eqb_spec c a) as [->|Hne]; [now destruct (H a Hc) | reflexivity].
Qed.

Lemma replace_app (a b : char) (x y : str) :
  replace a b (x ++ y) = replace a b x ++ replace a b y.
Proof. apply map_app. Qed.

Lemma space_chars (c : char) :
  c = SP \/ c = CR \/ c = LF -> isspace c = true.
Proof. intros [-> | [-> | ->]]; reflexivity. Qed.

(** *** Lower-casing *)

Lemma lower_in_app (x y before after : str) :
  lower_in before (x ++ y) after
  = lower_in before x (y ++ after) ++ lower_in (rev x ++ before) y after.
Proof.
  revert before. induction x as [|c x IH]; intros before; simpl; [reflexivity|].
  rewrite IH, <- !app_assoc. simpl. reflexivity.
Qed.

Lemma skip_ignorable_app (x y : str) :
  skip_ignorable (x ++ y) =
  match skip_ignorable x with
  | Some d => Some d
  | None => skip_ignorable y
  end.
Proof.
  induction x as [|c x IH]; simpl; [reflexivity|].
  destruct (case_ignorable c); [exact IH | reflexivity].
Qed.

Lemma final_sigma_after_space (before r y : str) (c : char) :
  isspace c = true ->
  final_sigma before (r ++ c :: y) = final_sigma before (r ++ []).
Proof.
  intros Hc. destruct (space_plain c Hc) as (_ & Hcased & Hign).
  unfold final_sigma. rewrite !skip_ignorable_app. simpl.
  rewrite Hign.
  destruct (skip_ignorable before); [|reflexivity].
  destruct (skip_ignorable r); [reflexivity|]. now rewrite Hcased.
Qed.

Lemma final_sigma_before_space (b' b after : str) (c : char) :
  isspace c = true ->
  final_sigma (b' ++ c :: b) after = final_sigma b' after.
Proof.
  intros Hc. destruct (space_plain c Hc) as (_ & Hcased & Hign).
  unfold final_sigma. rewrite skip_ignorable_app. simpl.
  rewrite Hign. destruct (skip_ignorable b'); [reflexivity|].
  now rewrite Hcased.
Qed.

Lemma lower_in_after_space (before x y : str) (c : char) :
  isspace c = true ->
  lower_in before x (c :: y) = lower_in before x [].
Proof.
  intros Hc. revert before. induction x as [|d x IH]; intros before; simpl;
    [reflexivity|].
  now rewrite IH, (final_sigma_after_space before x y c Hc).
Qed.

Lemma lower_in_before_space (b' b y after : str) (c : char) :
  isspace c = true ->
  lower_in (b' ++ c :: b) y after = lower_in b' y after.
Proof.
  intros Hc. revert b'. induction y as [|d y IH]; intros b'; simpl;
    [reflexivity|].
  rewrite (final_sigma_before_space b' b (y ++ after) c Hc).
  f_equal. exact (IH (d :: b')).
Qed.

Lemma space_not_sigma (c : char) : isspace c = true -> (c =? SIGMA)%N = false.
Proof.
  intros Hc. destruct (N.eqb_spec c SIGMA) as [->|]; [discriminate Hc | reflexivity].
Qed.

(** Lower-casing works on the two sides of a white-space character
    separately. *)
Lemma lower_split (x y : str) (c : char) :
  isspace c = true -> lower (x ++ c :: y) = lower x ++ c :: lower y.
Proof.
  intros Hc. unfold lower. rewrite lower_in_app, !app_nil_r.
  rewrite (lower_in_after_space [] x y c Hc). f_equal.
  simpl. rewrite (space_not_sigma c Hc).
  destruct (space_plain c Hc) as (-> & _). simpl. f_equal.
  exact (lower_in_before_space [] (rev x) y [] c Hc).
Qed.

Lemma lower_spaces (gap y : str) :
  (forall c, In c gap -> isspace c = true) -> lower (gap ++ y) = gap ++ lower y.
Proof.
  induction gap as [|c gap IH]; intros H; [reflexivity|].
  change ((c :: gap) ++ y) with ([] ++ c :: (gap ++ y)).
  rewrite lower_split by (apply H; now left).
  simpl. f_equal. apply IH. intros d Hd. apply H. now right.
Qed.

Lemma sigmas_settled : settled FINAL_SIGMA /\ settled SMALL_SIGMA.
Proof.
  destruct lower_map_sigmas as (H1 & H2).
  split; (split; [discriminate | assumption]).
Qed.

Lemma lower_in_settled (before s after : str) (c : char) :
  In c (lower_in before s after) -> settled c.
Proof.
  revert before. induction s as [|d s IH]; intros before; simpl; [tauto|].
  intros H. apply in_app_or in H. destruct H as [H|H]; [|now apply IH in H].
  destruct (d =? SIGMA)%N.
  - destruct H as [<-|[]].
    destruct (final_sigma before (s ++ after)); apply sigmas_settled.
  - exact (lower_map_settled d c H).
Qed.

Lemma lower_in_fixed (before s after : str) :
  (forall c, In c s -> settled c) -> lower_in before s after = s.
Proof.
  revert before. induction s as [|d s IH]; intros before H; simpl; [reflexivity|].
  destruct (H d (or_introl eq_refl)) as (Hd & Hm).
  apply N.eqb_neq in Hd. rewrite Hd, Hm. simpl. f_equal.
  apply IH. intros c Hc. apply H. now right.
Qed.

Lemma lower_in_black (before s after : str) :
  (forall c, In c s -> isspace c = false) ->
  forall c, In c (lower_in before s after) -> isspace c = false.
Proof.
  revert before. induction s as [|d s IH]; intros before H c; simpl; [tauto|].
  intros Hc. apply in_app_or in Hc. destruct Hc as [Hc|Hc].
  - destruct (d =? SIGMA)%N.
    + destruct Hc as [<-|[]].
      now destruct (final_sigma before (s ++ after)).
    + apply (lower_map_black d c); [apply H; now left | exact Hc].
  - apply (IH (d :: before)); [|exact Hc]. intros e He. apply H. now right.
Qed.

Lemma lower_in_nonempty (before s after : str) :
  s <> [] -> lower_in before s after <> [].
Proof.
  destruct s as [|d s]; [congruence|]. intros _. simpl.
  destruct (d =? SIGMA)%N; [discriminate|].
  pose proof (lower_map_nonempty d). destruct (lower_map d); [congruence | discriminate].
Qed.

Lemma ascii_not_sigma (c : char) : (c < 128)%N -> (c =? SIGMA)%N = false.
Proof. intros H. apply N.eqb_neq. unfold SIGMA. lia. Qed.

Lemma lower_in_ascii (before s after : str) :
  is_ascii s -> lower_in before s after = map ascii_lower s.
Proof.
  revert before. induction s as [|d s IH]; intros before H; simpl; [reflexivity|].
  rewrite (ascii_not_sigma (H d (or_introl eq_refl))).
  rewrite (lower_map_ascii (H d (or_introl eq_refl))). simpl. f_equal.
  apply IH. intros c Hc. apply H. now right.
Qed.

Lemma settled_ascii (c : char) : (c < 128)%N -> ascii_lower c = c -> settled c.
Proof.
  intros Hlt Hfix. split.
  - unfold SIGMA. lia.
  - now rewrite (lower_map_ascii Hlt), Hfix.
Qed.

Lemma settled_lower (c : char) : settled c -> lower [c] = [c].
Proof.
  intros H. unfold lower. apply lower_in_fixed.
  intros d [<-|[]]. exact H.
Qed.

(** *** The normalised header *)

Lemma clean_column_chars (col : str) (c : char) :
  In c (clean_column col) ->
  settled c /\ c <> SP /\ c <> CR /\ c <> LF.
Proof.
  unfold clean_column. intros H.
  apply In_replace in H. destruct H as [-> | [H Hsp]].
  - split; [apply settled_ascii; reflexivity|]. repeat split; discriminate.
  - apply In_strip, In_replace in H. destruct H as [-> | [H Hlf]]; [congruence|].
    apply In_replace in H. destruct H as [-> | [H Hcr]]; [congruence|].
    split; [exact (lower_in_settled _ _ _ _ H)|]. now repeat split.
Qed.

Lemma clean_column_stripped (col : str) : stripped (clean_column col).
Proof.
  unfold clean_column, replace. apply stripped_map; [|apply strip_stripped].
  intros c Hc. destruct (N.eqb_spec c SP) as [->|]; [discriminate Hc | exact Hc].
Qed.

Lemma clean_column_ascii_eq (col : str) :
  is_ascii col -> clean_column col = clean_column_ascii col.
Proof.
  intros H. unfold clean_column, clean_column_ascii, lower.
  now rewrite (lower_in_ascii [] [] H).
Qed.

Lemma is_asciib_spec (s : str) : is_asciib s = true -> is_ascii s.
Proof.
  unfold is_asciib, is_ascii. intros H c Hc.
  rewrite forallb_forall in H. now apply N.ltb_lt, H.
Qed.

Lemma pdf_file_name_ascii_eq (n : str) :
  is_ascii n -> pdf_file_name n = pdf_file_name_ascii n.
Proof.
  intros H. unfold pdf_file_name, pdf_file_name_ascii, slice_to, re_sub_strip.
  do 3 f_equal. apply filter_ext_in. intros c Hc.
  unfold keep_char, keep_char_ascii, isword.
  now rewrite (isalnum_ascii (H c Hc)).
Qed.

Lemma spec_stem_eq (n : nat) (s : str) :
  spec_stem n s = replace SP US (slice_to n (re_sub_strip s)).
Proof.
  unfold replace, slice_to, re_sub_strip. revert n.
  induction s as [|c r IH]; intros n; simpl.
  - now rewrite firstn_nil.
  - destruct (keep_char c).
    + destruct n as [|n]; simpl; [reflexivity|]. now rewrite IH.
    + apply IH.
Qed.

(* ================================================================== *)
(** ** Header normalisation *)
(* ================================================================== *)

(** C10.  Normalising a column header twice gives the same result as
    normalising it once: lower-casing, replacing each carriage return and
    newline by a space, trimming and replacing spaces by underscores is
    idempotent. *)
Theorem clean_column_idempotent (col : str) :
  clean_column (clean_column col) = clean_column col.
Proof.
  pose proof (clean_column_chars col) as Hc.
  pose proof (clean_column_stripped col) as Hs.
  set (r := clean_column col) in *.
  unfold clean_column, lower.
  rewrite (lower_in_fixed [] r [] (fun c H => proj1 (Hc c H))).
  rewrite (@replace_absent CR SP r) by (intros c H; apply (Hc c H)).
  rewrite (@replace_absent LF SP r) by (intros c H; apply (Hc c H)).
  rewrite (stripped_fixed Hs).
  apply replace_absent. intros c H. apply (Hc c H).
Qed.
Lemma str_eqb_eq (a b : str) : str_eqb a b = true <-> a = b.
Proof.
  unfold str_eqb. destruct (list_eq_dec N.eq_dec a b); split; congruence.
Qed.

Lemma str_eqb_refl (a : str) : str_eqb a a = true.
Proof. now apply str_eqb_eq. Qed.

Lemma str_eqb_neq (a b : str) : str_eqb a b = false <-> a <> b.
Proof.
  unfold str_eqb. destruct (list_eq_dec N.eq_dec a b); split; congruence.
Qed.

Lemma str_eqb_sym (a b : str) : str_eqb a b = str_eqb b a.
Proof.
  unfold str_eqb.
  destruct (list_eq_dec N.eq_dec a b), (list_eq_dec N.eq_dec b a); congruence.
Qed.

Lemma mem_In (c : str) (l : list str) : mem c l = true <-> In c l.
Proof.
  unfold mem. rewrite existsb_exists. split.
  - intros [x [Hx He]]. apply str_eqb_eq in He. now subst.
  - intros H. exists c. split; [exact H | apply str_eqb_refl].
Qed.

Lemma mem_false (c : str) (l : list str) : mem c l = false <-> ~ In c l.
Proof.
  rewrite <- mem_In. destruct (mem c l); split; congruence.
Qed.

Lemma mem_app (c : str) (a b : list str) : mem c (a ++ b) = mem c a || mem c b.
Proof. apply existsb_app. Qed.

Lemma mem_single (c l : str) : mem c [l] = str_eqb c l.
Proof. unfold mem. simpl existsb. apply orb_false_r. Qed.

(* ================================================================== *)
(** ** Column bookkeeping of [setitem] and [annotate] *)
(* ================================================================== *)

Section Frames.

Lemma setitem_columns (l : str) (v : Cell) (df : DataFrame) :
  columns (setitem l v df) =
  columns df ++ (if mem l (columns df) then [] else [l]).
Proof.
  unfold setitem. destruct (mem l (columns df)); simpl;
    [now rewrite app_nil_r | reflexivity].
Qed.

Lemma setitem_rows_length (l : str) (v : Cell) (df : DataFrame) :
  length (rows (setitem l v df)) = length (rows df).
Proof.
  unfold setitem. destruct (mem l (columns df)); simpl; apply length_map.
Qed.

Lemma assign_all_rows_length (lvs : list (str * Cell)) (df : DataFrame) :
  length (rows (assign_all lvs df)) = length (rows df).
Proof.
  revert df. induction lvs as [|[l v] r IH]; intros df; simpl; [reflexivity|].
  unfold assign_all in IH. rewrite IH. apply setitem_rows_length.
Qed.

Lemma assign_all_columns (lvs : list (str * Cell)) (df : DataFrame) :
  NoDup (map fst lvs) ->
  columns (assign_all lvs df) =
  columns df ++ filter (fun l => negb (mem l (columns df))) (map fst lvs).
Proof.
  revert df. induction lvs as [|[l v] r IH]; intros df Hnd; simpl.
  - now rewrite app_nil_r.
  - inversion Hnd as [|? ? Hnotin Hnd']; subst.
    unfold assign_all in IH. rewrite (IH _ Hnd'), setitem_columns.
    destruct (mem l (columns df)) eqn:Hm; simpl.
    + now rewrite app_nil_r.
    + rewrite <- app_assoc. simpl. do 2 f_equal.
      apply filter_ext_in. intros x Hx.
      rewrite mem_app, mem_single.
      destruct (str_eqb x l) eqn:Hlx.
      * apply str_eqb_eq in Hlx. subst. contradiction.
      * now rewrite orb_false_r.
Qed.

Variables (project : ProjectLink) (file : str) (i stamp : nat).

Lemma annotate_assign (df : DataFrame) :
  annotate project file i stamp df =
  rename_columns clean_column
    (assign_all [ (lit "project_name", CStr (name project));
                  (lit "source_url", CStr (url project));
                  (lit "pdf_source_file", CStr file);
                  (lit "pdf_table_index", CInt i);
                  (lit "scrape_timestamp", CTime stamp) ] df).
Proof. reflexivity. Qed.

Lemma provenance_NoDup : NoDup provenance_columns.
Proof.
  unfold provenance_columns.
  repeat (constructor; [simpl; intros H; repeat destruct H as [H|H];
                        try discriminate H; exact H|]).
  constructor.
Qed.

Lemma annotate_columns (df : DataFrame) :
  columns (annotate project file i stamp df) =
  map clean_column (columns df ++ fresh_labels (columns df)).
Proof.
  rewrite annotate_assign.
  change (columns (rename_columns ?f ?d)) with (map f (columns d)).
  rewrite assign_all_columns; [reflexivity | exact provenance_NoDup].
Qed.

Lemma annotate_rows_length (df : DataFrame) :
  length (rows (annotate project file i stamp df)) = length (rows df).
Proof.
  rewrite annotate_assign.
  change (rows (rename_columns ?f ?d)) with (rows d).
  apply assign_all_rows_length.
Qed.

Lemma clean_provenance : map clean_column provenance_columns = provenance_columns.
Proof.
  transitivity (map clean_column_ascii provenance_columns);
    [|vm_compute; reflexivity].
  apply map_ext_in. intros l Hl. apply clean_column_ascii_eq, is_asciib_spec.
  assert (H : forallb is_asciib provenance_columns = true) by reflexivity.
  rewrite forallb_forall in H. now apply H.
Qed.

Lemma fresh_labels_no_clash (df : DataFrame) :
  no_clash df -> fresh_labels (columns df) = provenance_columns.
Proof.
  intros H. unfold fresh_labels.
  rewrite <- (filter_ext_in (fun _ => true)).
  - clear H. induction provenance_columns; simpl; congruence.
  - intros l Hl. symmetry. apply negb_true_iff, mem_false, H, Hl.
Qed.

End Frames.

Lemma replace_gap (gap : str) :
  Forall (fun c => c = SP \/ c = CR \/ c = LF) gap ->
  replace LF SP (replace CR SP gap) = repeat SP (length gap).
Proof.
  induction 1 as [|c gap Hc _ IH]; [reflexivity|].
  change (replace LF SP (replace CR SP (c :: gap)))
    with ((if ((if (c =? CR)%N then SP else c) =? LF)%N then SP
           else (if (c =? CR)%N then SP else c))
          :: replace LF SP (replace CR SP gap)).
  rewrite IH. destruct Hc as [-> | [-> | ->]]; reflexivity.
Qed.

Lemma replace_repeat (a b : char) (k : nat) :
  replace a b (repeat a k) = repeat b k.
Proof.
  induction k as [|k IH]; [reflexivity|].
  simpl. rewrite N.eqb_refl. f_equal. exact IH.
Qed.

Lemma black_not (s : str) (a : char) :
  isspace a = true ->
  (forall c, In c s -> isspace c = false) -> forall c, In c s -> c <> a.
Proof. intros Ha H c Hc ->. rewrite (H a Hc) in Ha. discriminate Ha. Qed.

(** A run of space, carriage-return and newline characters between two
    parts without white space: one underscore per character. *)
Lemma clean_column_gap (a gap b : str) :
  a <> [] -> b <> [] -> gap <> [] ->
  Forall (fun c => isspace c = false) a ->
  Forall (fun c => isspace c = false) b ->
  Forall (fun c => c = SP \/ c = CR \/ c = LF) gap ->
  clean_column (a ++ gap ++ b) = lower a ++ repeat US (length gap) ++ lower b.
Proof.
  intros Ha Hb Hg Fa Fb Fg.
  rewrite Forall_forall in Fa, Fb.
  assert (Hsp : forall c, In c gap -> isspace c = true)
    by (intros c Hc; rewrite Forall_forall in Fg; now apply space_chars, Fg).
  assert (Hlow : lower (a ++ gap ++ b) = lower a ++ gap ++ lower b).
  { destruct gap as [|g gap]; [congruence|]. simpl.
    rewrite lower_split by (apply Hsp; now left).
    rewrite lower_spaces by (intros c Hc; apply Hsp; now right).
    reflexivity. }
  assert (HA : forall c, In c (lower a) -> isspace c = false)
    by (apply lower_in_black; exact Fa).
  assert (HB : forall c, In c (lower b) -> isspace c = false)
    by (apply lower_in_black; exact Fb).
  assert (HAne : lower a <> []) by (now apply lower_in_nonempty).
  assert (HBne : lower b <> []) by (now apply lower_in_nonempty).
  unfold clean_column. rewrite Hlow.
  rewrite !replace_app.
  rewrite (@replace_absent CR SP (lower a)) by (now apply black_not).
  rewrite (@replace_absent CR SP (lower b)) by (now apply black_not).
  rewrite (@replace_absent LF SP (lower a)) by (now apply black_not).
  rewrite (@replace_absent LF SP (lower b)) by (now apply black_not).
  rewrite (replace_gap Fg).
  rewrite (stripped_fixed
             (@stripped_sandwich (lower a) (repeat SP (length gap)) (lower b)
                HAne HBne (proj2 (Forall_forall _ _) HA)
                (proj2 (Forall_forall _ _) HB))).
  rewrite !replace_app, replace_repeat.
  rewrite (@replace_absent SP US (lower a)) by (now apply black_not).
  rewrite (@replace_absent SP US (lower b)) by (now apply black_not).
  reflexivity.
Qed.

(** C3 (as amended).  Every original header of an accepted table is
    stored as [clean_column] of the raw header, that is: lower-cased,
    each carriage return and newline turned into a space, trimmed, each
    remaining space turned into one underscore.  Nothing is collapsed: a
    run of [k] space, carriage-return or newline characters, [k] at least
    1, between two parts without white space yields [k] underscores. *)
Theorem clean_column_keeps_runs
    (project : ProjectLink) (file : str) (i stamp : nat) (df : DataFrame)
    (a gap b : str) :
  a <> [] -> b <> [] -> gap <> [] ->
  Forall (fun c => isspace c = false) a ->
  Forall (fun c => isspace c = false) b ->
  Forall (fun c => c = SP \/ c = CR \/ c = LF) gap ->
  firstn (length (columns df)) (columns (annotate project file i stamp df))
    = map clean_column (columns df) /\
  clean_column (a ++ gap ++ b) = lower a ++ repeat US (length gap) ++ lower b.
Proof.
  intros Ha Hb Hg Fa Fb Fg. split.
  - rewrite annotate_columns, map_app.
    rewrite <- (length_map clean_column (columns df)).
    rewrite firstn_app, Nat.sub_diag, firstn_all. simpl. apply app_nil_r.
  - now apply clean_column_gap.
Qed.



(* ================================================================== *)
(** ** The fetcher *)
(* ================================================================== *)

Section Fetcher.

Variable E : Env.
Variables (url : str) (retries delay : nat).

(** What the retry loop touches: the request counter and the trace. *)
Lemma get_page_loop_frame (attempts : list nat) (s : State) :
  let s' := snd (get_page_loop E url retries delay attempts s) in
  clock_reads s' = clock_reads s /\ raw_pdfs s' = raw_pdfs s /\
  all_bids s' = all_bids s /\ processed_data s' = processed_data s.
Proof.
  revert s. induction attempts as [|a rest IH]; intros s; simpl.
  - now repeat split.
  - destruct (http_get E (requests s) url) as [r|];
      [destruct (raise_for_status r)|]; simpl;
      try (now repeat split);
      (destruct (a =? retries - 1); simpl; [now repeat split|];
       match goal with
       | |- context [get_page_loop E url retries delay rest ?t] =>
           specialize (IH t); simpl in IH; exact IH
       end).
Qed.

(** A reading of the trace that ignores sleeps, requests and the
    warning of a failed attempt is blind to the retry loop. *)
Lemma get_page_loop_unseen {A : Type} (f : Event -> list A)
    (attempts : list nat) (s : State) :
  (forall d, f (Sleep d) = []) ->
  (forall u, f (Get u) = []) ->
  (forall k u, f (Log Warning (AttemptFailed k u)) = []) ->
  flat_map f (trace (snd (get_page_loop E url retries delay attempts s)))
  = flat_map f (trace s).
Proof.
  intros Hs Hg Hw. revert s.
  induction attempts as [|a rest IH]; intros s; simpl; [reflexivity|].
  assert (Hgood : flat_map f ((trace s ++ [Sleep delay]) ++ [Get url])
                  = flat_map f (trace s))
    by (rewrite !flat_map_app; simpl; rewrite Hs, Hg, !app_nil_r; reflexivity).
  assert (Hbad : forall k,
             flat_map f (((trace s ++ [Sleep delay]) ++ [Get url])
                           ++ [Log Warning (AttemptFailed k url)])
             = flat_map f (trace s))
    by (intros k; rewrite flat_map_app, Hgood; simpl;
        rewrite Hw, !app_nil_r; reflexivity).
  destruct (http_get E (requests s) url) as [r|];
    [destruct (raise_for_status r)|]; simpl;
    try exact Hgood;
    (destruct (a =? retries - 1); simpl; [apply Hbad|];
     rewrite IH; simpl; apply Hbad).
Qed.

(** The loop over the attempts [a, a+1, ..., a+n-1] that end at
    [retries - 1]: either all of them fail, or the first one that does
    not fail ends the loop with its response. *)
Lemma get_page_loop_spec (n a : nat) (s : State) :
  a + n = retries ->
  let r := fst (get_page_loop E url retries delay (seq a n) s) in
  let s' := snd (get_page_loop E url retries delay (seq a n) s) in
  (r = None /\
   (forall j, j < n -> attempt_fails (http_get E (requests s + j) url) = true) /\
   trace s' = trace s ++ flat_map (failed_attempt delay url) (seq a n) /\
   requests s' = requests s + n)
  \/
  (exists resp j,
      r = Some resp /\ j < n /\
      (forall k, k < j -> attempt_fails (http_get E (requests s + k) url) = true) /\
      http_get E (requests s + j) url = Responded resp /\
      raise_for_status resp = false /\
      trace s' = trace s ++ flat_map (failed_attempt delay url) (seq a j)
                         ++ good_attempt delay url /\
      requests s' = requests s + S j).
Proof.
  revert a s. induction n as [|n IH]; intros a s Hret; simpl.
  - left. repeat split; [intros j Hj; lia | now rewrite app_nil_r | lia].
  - set (s3 := logging Warning (AttemptFailed (a + 1) url)
                 (snd (session_get E url (sleep delay s)))).
    assert (Hfail :
      attempt_fails (http_get E (requests s) url) = true ->
      let p := (if a =? retries - 1 then (None, s3)
                else get_page_loop E url retries delay (seq (S a) n) s3) in
      (fst p = None /\
       (forall j, j < S n ->
                  attempt_fails (http_get E (requests s + j) url) = true) /\
       trace (snd p) = trace s ++ failed_attempt delay url a
                         ++ flat_map (failed_attempt delay url) (seq (S a) n) /\
       requests (snd p) = requests s + S n)
      \/
      (exists resp j,
          fst p = Some resp /\ j < S n /\
          (forall k, k < j ->
                     attempt_fails (http_get E (requests s + k) url) = true) /\
          http_get E (requests s + j) url = Responded resp /\
          raise_for_status resp = false /\
          trace (snd p) = trace s ++ flat_map (failed_attempt delay url) (seq a j)
                            ++ good_attempt delay url /\
          requests (snd p) = requests s + S j)).
    { intros Hf. cbv zeta.
      destruct (a =? retries - 1) eqn:Hlast.
      - apply Nat.eqb_eq in Hlast. assert (n = 0) by lia. subst n.
        left. simpl. repeat split.
        + intros j Hj. assert (j = 0) by lia. subst j.
          now rewrite Nat.add_0_r.
        + unfold failed_attempt. now rewrite <- !app_assoc.
        + lia.
      - assert (Hret' : S a + n = retries) by lia.
        destruct (IH (S a) s3 Hret')
          as [(Hr & Hall & Htr & Hreq) | (resp & j & Hr & Hj & Hall & Hget & Hok & Htr & Hreq)].
        + left. repeat split.
          * exact Hr.
          * intros j Hj. destruct j as [|j].
            -- now rewrite Nat.add_0_r.
            -- replace (requests s + S j) with (requests s3 + j)
                 by (unfold s3; simpl; lia).
               apply Hall. lia.
          * rewrite Htr. unfold s3, failed_attempt. simpl.
            now rewrite <- !app_assoc.
          * rewrite Hreq. unfold s3. simpl. lia.
        + right. exists resp, (S j). repeat split.
          * exact Hr.
          * lia.
          * intros k Hk. destruct k as [|k].
            -- now rewrite Nat.add_0_r.
            -- replace (requests s + S k) with (requests s3 + k)
                 by (unfold s3; simpl; lia).
               apply Hall. lia.
          * replace (requests s + S j) with (requests s3 + j)
              by (unfold s3; simpl; lia).
            exact Hget.
          * exact Hok.
          * rewrite Htr. unfold s3, failed_attempt. simpl.
            now rewrite <- !app_assoc.
          * rewrite Hreq. unfold s3. simpl. lia. }
    destruct (http_get E (requests s) url) as [resp|] eqn:Hout.
    + destruct (raise_for_status resp) eqn:Hst.
      * destruct (Hfail Hst) as [H|H]; [left|right]; exact H.
      * right. exists resp, 0. simpl.
        repeat split; try (intros k Hk; lia); try lia.
        -- now rewrite Nat.add_0_r.
        -- exact Hst.
        -- unfold good_attempt. now rewrite <- app_assoc.
    + destruct (Hfail eq_refl) as [H|H]; [left|right]; exact H.
Qed.

End Fetcher.

(** C5.  With the default arguments [get_page] sends at most three GET
    requests, sleeps the fixed two seconds right before each of them (the
    first included), counts a raised request error and a 4xx/5xx status
    alike as a failed attempt, and returns [None], raising nothing, when
    all three attempts have failed. *)
Theorem get_page_default_retries (E : Env) (url : str) (s : State) :
  let r := fst (get_page_default E url s) in
  let s' := snd (get_page_default E url s) in
  exists fresh,
    trace s' = trace s ++ fresh /\
    gets fresh = requests s' - requests s /\
    gets fresh <= 3 /\
    sleeps_first 2 fresh = true /\
    (r = None <->
     forall j, j < 3 -> attempt_fails (http_get E (requests s + j) url) = true) /\
    (r = None -> gets fresh = 3) /\
    (forall resp, r = Some resp -> raise_for_status resp = false).
Proof.
  cbv zeta. unfold get_page_default, get_page, default_retries, default_delay.
  destruct (@get_page_loop_spec E url 3 2 3 0 s eq_refl)
    as [(Hr & Hall & Htr & Hreq)
       | (resp & j & Hr & Hj & Hall & Hget & Hok & Htr & Hreq)].
  - eexists. split; [exact Htr|]. rewrite Hr, Hreq.
    split; [simpl; lia|]. split; [simpl; lia|]. split; [reflexivity|].
    split; [split; [intros _; exact Hall | reflexivity]|].
    split; [reflexivity|].
    intros resp H. discriminate H.
  - eexists. split; [exact Htr|]. rewrite Hr, Hreq.
    assert (Hj3 : j = 0 \/ j = 1 \/ j = 2) by lia.
    split; [destruct Hj3 as [-> | [-> | ->]]; simpl; lia|].
    split; [destruct Hj3 as [-> | [-> | ->]]; simpl; lia|].
    split; [destruct Hj3 as [-> | [-> | ->]]; reflexivity|].
    split; [split|].
    + intros H. discriminate H.
    + intros H. specialize (H j Hj). rewrite Hget in H. simpl in H. congruence.
    + split; [intros H; discriminate H|].
      intros resp' H. injection H as <-. exact Hok.
Qed.

Lemma get_page_default_truthy (E : Env) (url : str) (s : State) (r : Response) :
  fst (get_page_default E url s) = Some r -> truthy r = true.
Proof.
  unfold get_page_default, get_page, default_retries, default_delay, truthy.
  intros H.
  destruct (@get_page_loop_spec E url 3 2 3 0 s eq_refl)
    as [(Hr & _) | (resp & j & Hr & _ & _ & _ & Hok & _)];
    rewrite Hr in H; [discriminate H|].
  injection H as <-. now rewrite Hok.
Qed.

(* ================================================================== *)
(** ** The link extractor *)
(* ================================================================== *)

Lemma startswith_spec (p s : str) :
  startswith s p = true <-> exists post, s = p ++ post.
Proof.
  revert s. induction p as [|a p IH]; intros s; destruct s as [|b s]; simpl.
  - split; [intros _; now exists [] | reflexivity].
  - split; [intros _; now exists (b :: s) | reflexivity].
  - split; [discriminate | intros [post H]; discriminate H].
  - rewrite andb_true_iff, N.eqb_eq, IH. split.
    + intros [-> [post ->]]. now exists post.
    + intros [post H]. injection H as -> ->. split; [reflexivity | now exists post].
Qed.

Lemma contains_nil (p : str) : contains [] p = startswith [] p.
Proof. unfold contains. apply orb_false_r. Qed.

Lemma contains_cons (c : char) (s p : str) :
  contains (c :: s) p = startswith (c :: s) p || contains s p.
Proof. reflexivity. Qed.

Lemma contains_spec (p s : str) :
  contains s p = true <-> exists pre post, s = pre ++ p ++ post.
Proof.
  induction s as [|c s IH].
  - rewrite contains_nil, startswith_spec. split.
    + intros [post H]. now exists [], post.
    + intros [pre [post H]]. destruct pre; [now exists post | discriminate H].
  - rewrite contains_cons, orb_true_iff, startswith_spec, IH. split.
    + intros [[post H] | [pre [post H]]].
      * now exists [], post.
      * exists (c :: pre), post. simpl. now f_equal.
    + intros [pre [post H]]. destruct pre as [|c' pre].
      * left. now exists post.
      * right. injection H as _ H. now exists pre, post.
Qed.

Lemma endswith_spec (p s : str) :
  endswith s p = true <-> exists pre, s = pre ++ p.
Proof.
  unfold endswith. rewrite startswith_spec. split.
  - intros [post H]. exists (rev post).
    apply (f_equal (@rev char)) in H.
    now rewrite rev_involutive, rev_app_distr, rev_involutive in H.
  - intros [pre ->]. exists (rev pre). apply rev_app_distr.
Qed.

Lemma fold_append_filter {A B : Type} (keep : A -> bool) (f : A -> B)
    (l : list A) (acc : list B) :
  fold_left (fun acc x => if keep x then acc ++ [f x] else acc) l acc
  = acc ++ map f (filter keep l).
Proof.
  revert acc. induction l as [|x l IH]; intros acc; simpl.
  - now rewrite app_nil_r.
  - rewrite IH. destruct (keep x); simpl; [now rewrite <- app_assoc | reflexivity].
Qed.

Lemma filter_filter {A : Type} (f g : A -> bool) (l : list A) :
  filter g (filter f l) = filter (fun x => f x && g x) l.
Proof.
  induction l as [|x l IH]; simpl; [reflexivity|].
  destruct (f x); simpl; [destruct (g x)|]; now rewrite IH.
Qed.

Lemma project_anchor_spec (a : Anchor) :
  project_anchor a = true <-> is_project_anchor a.
Proof.
  unfold project_anchor, is_project_anchor, wanted, has_href, link_href.
  destruct (href a) as [target|].
  - rewrite andb_true_l, andb_true_iff, existsb_exists, endswith_spec. split.
    + intros [[kw [Hin Hc]] He]. exists target. split; [reflexivity|]. split.
      * exists kw. split; [exact Hin | now apply contains_spec].
      * exact He.
    + intros [t [Ht [[kw [Hin Hc]] He]]]. injection Ht as <-. split.
      * exists kw. split; [exact Hin | now apply contains_spec].
      * exact He.
  - rewrite andb_false_l.
    split; [discriminate | intros [t [Ht _]]; discriminate Ht].
Qed.

(** C1.  [find_project_links] returns, in document order, one link for
    each anchor of the fetched page that has a target attribute, whose
    visible text contains one of the six keywords when case is ignored
    and whose lower-cased target ends in [.pdf], and for no other anchor;
    the link's [url] is the target joined to the page URL; when the fetch
    gives no response the result is empty. *)
Theorem find_project_links_exact (E : Env) (page_url : str) (s : State) :
  fst (find_project_links E page_url s) =
    match fst (get_page_default E page_url (logging Info (Searching page_url) s)) with
    | None => []
    | Some r =>
        map (link_of E page_url) (filter project_anchor (soup_anchors E (content r)))
    end /\
  (forall a, project_anchor a = true <-> is_project_anchor a) /\
  (forall a target, href a = Some target ->
                    url (link_of E page_url a) = urljoin E page_url target).
Proof.
  split; [|split].
  - unfold find_project_links.
    destruct (get_page_default E page_url (logging Info (Searching page_url) s))
      as [[r|] s1] eqn:Hget; simpl; [|reflexivity].
    assert (Ht : truthy r = true)
      by (apply (@get_page_default_truthy E page_url
                   (logging Info (Searching page_url) s)); now rewrite Hget).
    rewrite Ht. simpl.
    unfold find_all_a_href, project_anchor.
    rewrite <- filter_filter.
    exact (fold_append_filter wanted (link_of E page_url) _ []).
  - exact project_anchor_spec.
  - intros a target H. unfold link_of, link_href. simpl. now rewrite H.
Qed.

(* ================================================================== *)
(** ** Python dicts *)
(* ================================================================== *)

Section Dict.

Context {V : Type}.

Lemma dict_get_set (k k' : str) (v : V) (d : list (str * V)) :
  dict_get k (dict_set k' v d) =
  if str_eqb k' k then Some v else dict_get k d.
Proof.
  induction d as [|[k1 v1] d IH]; simpl; [reflexivity|].
  destruct (str_eqb k1 k') eqn:H1; simpl.
  - apply str_eqb_eq in H1. subst k1. now destruct (str_eqb k' k).
  - rewrite IH. destruct (str_eqb k1 k) eqn:H2; [|reflexivity].
    apply str_eqb_eq in H2. subst k1. now rewrite str_eqb_sym, H1.
Qed.

Lemma dict_set_keys (k : str) (v : V) (d : list (str * V)) :
  map fst (dict_set k v d) =
  if mem k (map fst d) then map fst d else map fst d ++ [k].
Proof.
  induction d as [|[k1 v1] d IH]; simpl; [reflexivity|].
  rewrite (str_eqb_sym k k1).
  destruct (str_eqb k1 k); simpl; [reflexivity|].
  rewrite IH. fold (mem k (map fst d)). now destruct (mem k (map fst d)).
Qed.

Lemma dict_get_In (k : str) (v : V) (d : list (str * V)) :
  dict_get k d = Some v -> In (k, v) d.
Proof.
  induction d as [|[k1 v1] d IH]; simpl; [discriminate|].
  destruct (str_eqb k1 k) eqn:H1.
  - intros H. injection H as <-. apply str_eqb_eq in H1. subst. now left.
  - intros H. right. now apply IH.
Qed.

Lemma In_dict_get (k : str) (v : V) (d : list (str * V)) :
  NoDup (map fst d) -> In (k, v) d -> dict_get k d = Some v.
Proof.
  induction d as [|[k1 v1] d IH]; simpl; [tauto|].
  intros Hnd [H|H]; inversion Hnd as [|? ? Hnot Hnd']; subst.
  - injection H as -> ->. now rewrite str_eqb_refl.
  - destruct (str_eqb k1 k) eqn:H1; [|now apply IH].
    apply str_eqb_eq in H1. subst k1. exfalso. apply Hnot.
    change k with (fst (k, v)). now apply in_map.
Qed.

End Dict.

(* ================================================================== *)
(** ** Table acceptance and provenance *)
(* ================================================================== *)

Lemma accepted_spec (df : DataFrame) :
  accepted df = true <-> rows df <> [] /\ 2 <= length (columns df).
Proof.
  unfold accepted, skipped, df_empty.
  rewrite negb_true_iff, orb_false_iff, Nat.ltb_ge.
  destruct (rows df) as [|r rs], (columns df) as [|c cs]; simpl; split;
    intros [H1 H2]; try discriminate; try lia; try (split; congruence); try tauto.
Qed.

Lemma annotate_stored_as (project : ProjectLink) (file : str) (i stamp : nat)
    (df : DataFrame) :
  stored_as df (annotate project file i stamp df).
Proof.
  unfold stored_as. split; [apply annotate_rows_length|].
  split; [apply annotate_columns|].
  intros Hno. rewrite annotate_columns, (fresh_labels_no_clash Hno), map_app.
  rewrite clean_provenance. split; [reflexivity|].
  now rewrite length_app, length_map.
Qed.

Section Collect.

Variables (E : Env) (project : ProjectLink) (file : str).

Lemma collect_tables_frame (tables : list DataFrame) (i : nat) (s : State) :
  let s' := collect_tables E project file i tables s in
  requests s' = requests s /\ trace s' = trace s /\
  raw_pdfs s' = raw_pdfs s /\ processed_data s' = processed_data s.
Proof.
  revert i s. induction tables as [|df rest IH]; intros i s; simpl.
  - now repeat split.
  - destruct (skipped df); [apply IH|].
    match goal with
    | |- context [collect_tables E project file (S i) rest ?t] =>
        destruct (IH (S i) t) as (H1 & H2 & H3 & H4)
    end.
    simpl in *. now repeat split.
Qed.

Lemma collect_tables_stored (tables : list DataFrame) (i : nat) (s : State) :
  exists stored,
    all_bids (collect_tables E project file i tables s) = all_bids s ++ stored /\
    Forall2 stored_as (filter accepted tables) stored.
Proof.
  revert i s. induction tables as [|df rest IH]; intros i s; simpl.
  - exists []. split; [now rewrite app_nil_r | constructor].
  - unfold accepted at 1. destruct (skipped df); simpl; [apply IH|].
    match goal with
    | |- context [collect_tables E project file (S i) rest ?t] =>
        destruct (IH (S i) t) as (stored & Hs & HF)
    end.
    eexists (_ :: stored). split.
    + rewrite Hs. simpl. rewrite <- app_assoc. reflexivity.
    + constructor; [apply annotate_stored_as | exact HF].
Qed.

End Collect.

Lemma process_pdf_stored (E : Env) (project : ProjectLink) (s : State) :
  exists stored,
    all_bids (process_pdf E project s) = all_bids s ++ stored /\
    Forall2 stored_as (filter accepted (extracted_tables E project s)) stored.
Proof.
  unfold process_pdf, extracted_tables.
  pose proof (@get_page_loop_frame E (url project) default_retries default_delay
                (seq 0 default_retries)
                (logging Info (Processing (name project)) s)) as Hf.
  cbv zeta in Hf. destruct Hf as (_ & _ & Hbids & _).
  fold (get_page E (url project) default_retries default_delay
          (logging Info (Processing (name project)) s)) in Hbids.
  fold (get_page_default E (url project)
          (logging Info (Processing (name project)) s)) in Hbids.
  assert (Hnone : exists stored : list DataFrame,
             all_bids s = all_bids s ++ stored /\ Forall2 stored_as [] stored)
    by (exists []; split; [now rewrite app_nil_r | constructor]).
  destruct (get_page_default E (url project)
              (logging Info (Processing (name project)) s))
    as [[r|] s1] eqn:Hget; cbn [fst snd] in *;
    [|rewrite Hbids; exact Hnone].
  assert (Ht : truthy r = true)
    by (apply (@get_page_default_truthy E (url project)
                 (logging Info (Processing (name project)) s)); now rewrite Hget).
  rewrite Ht. cbn [negb].
  assert (Hread : dict_get (pdf_file_name (name project))
                    (raw_pdfs (write_raw (pdf_file_name (name project))
                                 (content r) s1)) = Some (content r))
    by (cbn [raw_pdfs write_raw]; now rewrite dict_get_set, str_eqb_refl).
  rewrite Hread.
  assert (Hlog : forall l m t0, all_bids (logging l m t0) = all_bids t0)
    by reflexivity.
  destruct (tabula_read_pdf E (content r)) as [[|t ts]|];
    rewrite Hlog; try (cbn [all_bids write_raw]; rewrite Hbids; exact Hnone).
  destruct (collect_tables_stored E project (pdf_file_name (name project))
              (t :: ts) 0
              (write_raw (pdf_file_name (name project)) (content r) s1))
    as (stored & Hs & HF).
  exists stored. split; [|exact HF].
  rewrite Hs. cbn [all_bids write_raw]. now rewrite Hbids.
Qed.




(* ================================================================== *)
(** ** The persisted file name *)
(* ================================================================== *)

Lemma pdf_file_name_spec (n : str) : pdf_file_name n = spec_file_name n.
Proof. unfold pdf_file_name, spec_file_name. now rewrite spec_stem_eq. Qed.

Lemma process_pdf_raw_pdfs (E : Env) (project : ProjectLink) (s : State) :
  raw_pdfs (process_pdf E project s) =
  match fst (get_page_default E (url project)
               (logging Info (Processing (name project)) s)) with
  | Some r => dict_set (pdf_file_name (name project)) (content r) (raw_pdfs s)
  | None => raw_pdfs s
  end.
Proof.
  unfold process_pdf.
  pose proof (@get_page_loop_frame E (url project) default_retries default_delay
                (seq 0 default_retries)
                (logging Info (Processing (name project)) s)) as Hf.
  cbv zeta in Hf. destruct Hf as (_ & Hraw & _ & _).
  fold (get_page E (url project) default_retries default_delay
          (logging Info (Processing (name project)) s)) in Hraw.
  fold (get_page_default E (url project)
          (logging Info (Processing (name project)) s)) in Hraw.
  destruct (get_page_default E (url project)
              (logging Info (Processing (name project)) s))
    as [[r|] s1] eqn:Hget; simpl in *; [|exact Hraw].
  assert (Ht : truthy r = true)
    by (apply (@get_page_default_truthy E (url project)
                 (logging Info (Processing (name project)) s)); now rewrite Hget).
  rewrite Ht. cbn [negb].
  assert (Hlog : forall l m t0, raw_pdfs (logging l m t0) = raw_pdfs t0)
    by reflexivity.
  assert (Hw : raw_pdfs (write_raw (pdf_file_name (name project)) (content r) s1)
               = dict_set (pdf_file_name (name project)) (content r) (raw_pdfs s))
    by (simpl; now rewrite Hraw).
  destruct (dict_get _ _) as [bytes|]; [|now rewrite Hlog].
  destruct (tabula_read_pdf E bytes) as [[|t ts]|]; try now rewrite Hlog.
  rewrite Hlog.
  match goal with
  | |- context [collect_tables E project ?f 0 ?tabs ?t0] =>
      destruct (collect_tables_frame E project f tabs 0 t0) as (_ & _ & H3 & _)
  end.
  now rewrite H3.
Qed.

(** C6.  The file that [process_pdf] writes is named after the project:
    the name with every character other than word characters, white
    space and hyphens removed, cut to at most 100 characters, spaces
    turned into underscores, and [.pdf] appended; the name
    [Bid: Road/Bridge (Final)!!] gives [Bid_RoadBridge_Final.pdf]. *)
Theorem pdf_file_name_persisted (E : Env) (project : ProjectLink) (s : State) :
  raw_pdfs (process_pdf E project s) =
    match fst (get_page_default E (url project)
                 (logging Info (Processing (name project)) s)) with
    | Some r => dict_set (spec_file_name (name project)) (content r) (raw_pdfs s)
    | None => raw_pdfs s
    end /\
  pdf_file_name (name project) = spec_file_name (name project) /\
  length (spec_file_name (name project)) <= 104 /\
  spec_file_name (lit "Bid: Road/Bridge (Final)!!") = lit "Bid_RoadBridge_Final.pdf".
Proof.
  split; [|split; [|split]].
  - rewrite process_pdf_raw_pdfs. now rewrite pdf_file_name_spec.
  - apply pdf_file_name_spec.
  - rewrite <- pdf_file_name_spec. unfold pdf_file_name, replace, slice_to.
    rewrite length_app, length_map.
    pose proof (firstn_le_length 100 (re_sub_strip (name project))).
    pose proof (eq_refl : length (lit ".pdf") = 4).
    unfold char in *. lia.
  - rewrite <- pdf_file_name_spec, pdf_file_name_ascii_eq; [reflexivity|].
    now apply is_asciib_spec.
Qed.

(* ================================================================== *)
(** ** Deduplication by URL *)
(* ================================================================== *)


Lemma first_occurrences_In (x : str) (l : list str) :
  In x (first_occurrences l) <-> In x l.
Proof.
  induction l as [|c r IH]; simpl; [tauto|].
  rewrite filter_In, IH, negb_true_iff, str_eqb_neq.
  destruct (list_eq_dec N.eq_dec c x); [tauto|]. split.
  - intros [H|[H _]]; tauto.
  - intros [H|H]; [tauto|]. right. split; congruence.
Qed.

Lemma first_occurrences_NoDup (l : list str) : NoDup (first_occurrences l).
Proof.
  induction l as [|c r IH]; simpl; constructor.
  - rewrite filter_In, negb_true_iff, str_eqb_neq. tauto.
  - now apply NoDup_filter.
Qed.

Lemma first_occurrences_snoc (l : list str) (x : str) :
  first_occurrences (l ++ [x]) =
  if mem x l then first_occurrences l else first_occurrences l ++ [x].
Proof.
  induction l as [|c r IH]; simpl; [reflexivity|].
  rewrite IH. fold (mem x r).
  destruct (str_eqb x c) eqn:Hxc; simpl.
  - destruct (mem x r); [reflexivity|].
    rewrite filter_app. simpl. rewrite Hxc. simpl. now rewrite app_nil_r.
  - destruct (mem x r); [reflexivity|].
    rewrite filter_app. simpl. now rewrite Hxc.
Qed.

Section Dedup.

Lemma by_url_snoc (links : list ProjectLink) (p : ProjectLink) :
  by_url (links ++ [p]) = dict_set (url p) p (by_url links).
Proof. unfold by_url. now rewrite fold_left_app. Qed.

Lemma by_url_keys (links : list ProjectLink) :
  map fst (by_url links) = first_occurrences (map url links).
Proof.
  induction links as [|p links IH] using rev_ind; [reflexivity|].
  rewrite by_url_snoc, dict_set_keys, map_app.
  change (map url [p]) with [url p].
  rewrite first_occurrences_snoc, IH.
  replace (mem (url p) (first_occurrences (map url links)))
    with (mem (url p) (map url links)); [reflexivity|].
  destruct (mem (url p) (map url links)) eqn:Hm.
  - symmetry. apply mem_In, first_occurrences_In, mem_In, Hm.
  - symmetry. apply mem_false. rewrite first_occurrences_In.
    now apply mem_false.
Qed.

Lemma by_url_get (links : list ProjectLink) (u : str) :
  dict_get u (by_url links) = last_with_url u links.
Proof.
  unfold last_with_url.
  induction links as [|p links IH] using rev_ind; [reflexivity|].
  rewrite by_url_snoc, dict_get_set, rev_app_distr. simpl.
  now rewrite IH.
Qed.

Lemma by_url_keyed (links : list ProjectLink) (k : str) (p : ProjectLink) :
  In (k, p) (by_url links) -> url p = k.
Proof.
  intros H.
  assert (Hnd : NoDup (map fst (by_url links)))
    by (rewrite by_url_keys; apply first_occurrences_NoDup).
  pose proof (In_dict_get k p _ Hnd H) as Hg.
  rewrite by_url_get in Hg. unfold last_with_url in Hg.
  apply find_some in Hg. destruct Hg as [_ Hg]. now apply str_eqb_eq.
Qed.

Lemma by_url_urls (links : list ProjectLink) :
  map url (dict_values (by_url links)) = map fst (by_url links).
Proof.
  unfold dict_values. rewrite map_map.
  apply map_ext_in. intros [k p] Hin. simpl. now apply by_url_keyed with links.
Qed.

End Dedup.

(** C4.  The deduplicated list holds exactly one entry per distinct URL
    of the discovered links; for a URL found several times the entry seen
    last is the one kept; the entries stand in the order in which their
    URLs were first seen. *)
Theorem unique_projects_by_url (links : list ProjectLink) :
  NoDup (map url (unique_projects links)) /\
  (forall u, In u (map url (unique_projects links)) <-> In u (map url links)) /\
  (forall p, In p (unique_projects links) <->
             last_with_url (url p) links = Some p) /\
  map url (unique_projects links) = first_occurrences (map url links).
Proof.
  assert (Hu : map url (unique_projects links) = first_occurrences (map url links))
    by (unfold unique_projects; fold (by_url links);
        now rewrite by_url_urls, by_url_keys).
  assert (Hnd : NoDup (map fst (by_url links)))
    by (rewrite by_url_keys; apply first_occurrences_NoDup).
  split; [rewrite Hu; apply first_occurrences_NoDup|].
  split; [intros u; rewrite Hu; apply first_occurrences_In|].
  split; [|exact Hu].
  intros p. unfold unique_projects. fold (by_url links).
  rewrite <- by_url_get. unfold dict_values. split.
  - intros H. apply in_map_iff in H. destruct H as [[k q] [Hq Hin]].
    simpl in Hq. subst q.
    rewrite (by_url_keyed links k p Hin) in *.
    now apply In_dict_get.
  - intros H. apply dict_get_In in H.
    change p with (snd (url p, p)). now apply in_map.
Qed.

(* ================================================================== *)
(** ** The output table *)
(* ================================================================== *)

Lemma cell_under_absent (cols : list str) (row : list Cell) (c : str) :
  ~ In c cols -> cell_under cols row c = NaN.
Proof.
  unfold cell_under. intros H.
  assert (Hi : index_of c cols = None).
  { induction cols as [|c' cols IH]; simpl; [reflexivity|].
    destruct (str_eqb c' c) eqn:He.
    - apply str_eqb_eq in He. subst. exfalso. apply H. now left.
    - rewrite IH; [reflexivity|]. intros Hin. apply H. now right. }
  now rewrite Hi.
Qed.

Lemma cell_under_relaid (g : str -> Cell) (cols : list str) (c : str) :
  In c cols -> cell_under cols (map g cols) c = g c.
Proof.
  unfold cell_under. induction cols as [|c' cols IH]; simpl; [tauto|].
  intros Hin. destruct (str_eqb c' c) eqn:He.
  - apply str_eqb_eq in He. now subst.
  - destruct Hin as [Hin|Hin]; [apply str_eqb_neq in He; congruence|].
    specialize (IH Hin). destruct (index_of c cols); exact IH.
Qed.

Lemma flat_map_rows_length {A : Type} (f : A -> list (list Cell)) (l : list A) :
  length (flat_map f l) = list_sum (map (fun x => length (f x)) l).
Proof.
  induction l as [|x l IH]; simpl; [reflexivity|].
  now rewrite length_app, IH.
Qed.

Lemma cols_eqb_eq (a b : list str) : cols_eqb a b = true <-> a = b.
Proof.
  unfold cols_eqb.
  destruct (list_eq_dec (list_eq_dec N.eq_dec) a b); split; congruence.
Qed.

Lemma same_columns_all (f : DataFrame) (rest : list DataFrame) (df : DataFrame) :
  same_columns (f :: rest) = true -> In df (f :: rest) -> columns df = columns f.
Proof.
  simpl. intros Hs [<-|Hin]; [reflexivity|].
  rewrite forallb_forall in Hs. now apply cols_eqb_eq, Hs.
Qed.

(** What [concat] returns on label lists it can put together. *)
Lemma concat_aligned (frames : list DataFrame) :
  frames <> [] ->
  labels_aligned frames = true ->
  exists final,
    concat frames = Ok final /\
    length (rows final) = total_rows frames /\
    (forall c, In c (columns final) <->
               exists df, In df frames /\ In c (columns df)) /\
    exists place,
      rows final = flat_map (fun df => map (place df) (rows df)) frames /\
      forall df row c,
        In df frames -> In c (columns final) ->
        cell_under (columns final) (place df row) c = cell_under (columns df) row c /\
        (~ In c (columns df) ->
         cell_under (columns final) (place df row) c = NaN).
Proof.
  intros Hne Hal. destruct frames as [|f rest]; [congruence|].
  unfold concat. destruct (same_columns (f :: rest)) eqn:Hsame.
  - eexists. split; [reflexivity|]. cbn [columns rows]. split; [|split].
    + apply (flat_map_rows_length rows).
    + intros c. split.
      * intros H. exists f. split; [now left | exact H].
      * intros [df [Hin Hc]]. now rewrite <- (same_columns_all Hsame Hin).
    + exists (fun _ row => row). split.
      * apply flat_map_ext. intros df. symmetry. apply map_id.
      * intros df row c Hin Hc.
        rewrite (same_columns_all Hsame Hin). split; [reflexivity|].
        intros Hno. contradiction.
  - unfold labels_aligned in Hal. rewrite Hsame in Hal. simpl in Hal.
    simpl forallb. rewrite Hal.
    eexists. split; [reflexivity|]. cbn [columns rows]. split; [|split].
    + unfold total_rows.
      rewrite (flat_map_rows_length
                 (fun g => map (reindex (columns g)
                                  (union_columns (f :: rest))) (rows g))).
      f_equal. apply map_ext. intros df. apply length_map.
    + intros c. unfold union_columns.
      rewrite first_occurrences_In, in_flat_map. reflexivity.
    + exists (fun df => reindex (columns df) (union_columns (f :: rest))).
      split; [reflexivity|].
      intros df row c Hin Hc.
      change (reindex (columns df) (union_columns (f :: rest)) row)
        with (map (cell_under (columns df) row) (union_columns (f :: rest))).
      rewrite (@cell_under_relaid (cell_under (columns df) row) _ _ Hc). split; [reflexivity|].
      apply cell_under_absent.
Qed.

(** The end of [run] where [pandas.concat] succeeds.  With no accepted
    table nothing is written.  With at least one accepted table whose
    label lists can be put together (all tables carry the same label
    list, or no table repeats a label), exactly one output table is
    written; its row count is the sum of the row counts of the accepted
    tables, its labels are those of the accepted tables, and a row shows
    the missing-value marker under every label its own table lacks. *)
Theorem write_output_rows (E : Env) (s : State) :
  labels_aligned (all_bids s) = true ->
  match all_bids s with
  | [] =>
      write_output E s = Returned (logging Warning NoData s) /\
      processed_data (final_state (write_output E s)) = processed_data s
  | _ :: _ =>
      exists final,
        (exists s', write_output E s = Returned s' /\
                    processed_data s' =
                      processed_data s ++ [(now E (clock_reads s), final)]) /\
        length (rows final) = total_rows (all_bids s) /\
        (forall c, In c (columns final) <->
                   exists df, In df (all_bids s) /\ In c (columns df)) /\
        exists place,
          rows final = flat_map (fun df => map (place df) (rows df)) (all_bids s) /\
          forall df row c,
            In df (all_bids s) -> In c (columns final) ->
            cell_under (columns final) (place df row) c
              = cell_under (columns df) row c /\
            (~ In c (columns df) ->
             cell_under (columns final) (place df row) c = NaN)
  end.
Proof.
  intros Hal. unfold write_output.
  destruct (all_bids s) as [|f rest] eqn:Hbids.
  - split; reflexivity.
  - assert (Hne : f :: rest <> []) by discriminate.
    destruct (concat_aligned Hne Hal) as (final & Hc & Hrows & Hcols & Hplace).
    rewrite Hc. exists final. split; [|split; [exact Hrows | split; [exact Hcols | exact Hplace]]].
    eexists. split; reflexivity.
Qed.



(* ================================================================== *)
(** ** Modes of [run] *)
(* ================================================================== *)

Lemma searched_routine : routine searched_page.
Proof.
  repeat split; try reflexivity.
  intros l m Hs Hp. destruct l, m; try reflexivity. now destruct (Hs page_url).
Qed.

Lemma processed_routine : routine processed_name.
Proof.
  repeat split; try reflexivity.
  intros l m Hs Hp. destruct l, m; try reflexivity. now destruct (Hp name0).
Qed.

Section Traces.

Variable E : Env.
Variable f : Event -> list str.
Hypothesis Hf : routine f.

Let see (s : State) : list str := flat_map f (trace s).

Lemma see_log (l : Level) (m : Message) (s : State) :
  see (logging l m s) = see s ++ f (Log l m).
Proof. unfold see. simpl. rewrite flat_map_app. simpl. now rewrite app_nil_r. Qed.

Lemma see_quiet_log (l : Level) (m : Message) (s : State) :
  (forall u, m <> Searching u) -> (forall n, m <> Processing n) ->
  see (logging l m s) = see s.
Proof.
  intros H1 H2. rewrite see_log.
  destruct Hf as (_ & _ & Hl). rewrite (Hl l m H1 H2). apply app_nil_r.
Qed.

Lemma see_get_page (u : str) (s : State) :
  see (snd (get_page_default E u s)) = see s.
Proof.
  destruct Hf as (Hs & Hg & Hl).
  apply get_page_loop_unseen; [exact Hs | exact Hg |].
  intros k v. apply Hl; intros; discriminate.
Qed.

Lemma see_find_project_links (u : str) (s : State) :
  see (snd (find_project_links E u s)) = see s ++ f (Log Info (Searching u)).
Proof.
  unfold find_project_links.
  pose proof (see_get_page u (logging Info (Searching u) s)) as Hg.
  destruct (get_page_default E u (logging Info (Searching u) s)) as [[r|] s1];
    simpl snd in *.
  - destruct (negb (truthy r)); simpl snd.
    + now rewrite Hg, see_log.
    + rewrite see_quiet_log by (intros; discriminate).
      now rewrite Hg, see_log.
  - now rewrite Hg, see_log.
Qed.

Lemma see_scan (urls : list str) (acc : list ProjectLink) (s : State) :
  see (snd (scan E urls acc s))
  = see s ++ flat_map (fun u => f (Log Info (Searching u))) urls.
Proof.
  revert acc s. induction urls as [|u rest IH]; intros acc s; simpl.
  - now rewrite app_nil_r.
  - pose proof (see_find_project_links u s) as Hu.
    destruct (find_project_links E u s) as [found s1]. simpl snd in Hu.
    now rewrite IH, Hu, <- app_assoc.
Qed.

Lemma see_collect_tables (p : ProjectLink) (file : str) (i : nat)
    (tables : list DataFrame) (s : State) :
  see (collect_tables E p file i tables s) = see s.
Proof.
  unfold see. now destruct (collect_tables_frame E p file tables i s) as (_ & -> & _).
Qed.

Lemma see_process_pdf (p : ProjectLink) (s : State) :
  see (process_pdf E p s) = see s ++ f (Log Info (Processing (name p))).
Proof.
  unfold process_pdf.
  pose proof (see_get_page (url p) (logging Info (Processing (name p)) s)) as Hg.
  destruct (get_page_default E (url p) (logging Info (Processing (name p)) s))
    as [[r|] s1]; simpl snd in *; [|now rewrite Hg, see_log].
  destruct (negb (truthy r)); [now rewrite Hg, see_log|].
  assert (Hw : forall file bytes, see (write_raw file bytes s1) = see s1)
    by reflexivity.
  destruct (dict_get _ _) as [bytes|].
  - destruct (tabula_read_pdf E bytes) as [[|t ts]|];
      rewrite see_quiet_log by (intros; discriminate);
      rewrite ?see_collect_tables, Hw, Hg; apply see_log.
  - rewrite see_quiet_log by (intros; discriminate).
    rewrite Hw, Hg. apply see_log.
Qed.

Lemma see_process_each (ps : list ProjectLink) (s : State) :
  see (process_each E ps s)
  = see s ++ flat_map (fun p => f (Log Info (Processing (name p)))) ps.
Proof.
  revert s. induction ps as [|p rest IH]; intros s; simpl.
  - now rewrite app_nil_r.
  - now rewrite IH, see_process_pdf, <- app_assoc.
Qed.

Lemma see_write_output (s : State) :
  see (final_state (write_output E s)) = see s.
Proof.
  unfold write_output. destruct (all_bids s) as [|b bs].
  - simpl final_state. apply see_quiet_log; intros; discriminate.
  - destruct (concat (b :: bs)) as [final|e]; [|reflexivity].
    simpl final_state. rewrite see_quiet_log by (intros; discriminate).
    reflexivity.
Qed.

Lemma see_pipeline (seeds : list str) (cap : option nat) (s : State) :
  see (final_state (pipeline E seeds cap s))
  = see s ++ flat_map (fun u => f (Log Info (Searching u))) seeds
          ++ flat_map (fun p => f (Log Info (Processing (name p))))
               (documents E seeds cap s).
Proof.
  unfold pipeline, documents.
  pose proof (see_scan seeds [] s) as Hs.
  destruct (scan E seeds [] s) as [links s1]. simpl fst. simpl snd in Hs.
  rewrite see_write_output, see_process_each.
  rewrite see_quiet_log by (intros; discriminate).
  now rewrite Hs, <- app_assoc.
Qed.

End Traces.

Lemma flat_map_single {A B : Type} (g : A -> B) (l : list A) :
  flat_map (fun x => [g x]) l = map g l.
Proof. induction l as [|x l IH]; simpl; [reflexivity | now rewrite IH]. Qed.

Lemma flat_map_none {A B : Type} (l : list A) :
  flat_map (fun _ : A => @nil B) l = [].
Proof. induction l as [|x l IH]; simpl; [reflexivity | exact IH]. Qed.

Lemma pipeline_searched (E : Env) (seeds : list str) (cap : option nat) (s : State) :
  searched (trace (final_state (pipeline E seeds cap s)))
  = searched (trace s) ++ seeds.
Proof.
  unfold searched. rewrite (see_pipeline E searched_routine). simpl.
  rewrite flat_map_none, app_nil_r. f_equal.
  rewrite (flat_map_single (fun u : str => u)). apply map_id.
Qed.

Lemma pipeline_processed (E : Env) (seeds : list str) (cap : option nat) (s : State) :
  processed (trace (final_state (pipeline E seeds cap s)))
  = processed (trace s) ++ map name (documents E seeds cap s).
Proof.
  unfold processed. rewrite (see_pipeline E processed_routine). simpl.
  rewrite flat_map_none. simpl. now rewrite flat_map_single.
Qed.

Lemma run_pipeline (E : Env) (mode : str) (s : State) :
  run E mode s =
  if str_eqb mode (lit "full") then pipeline E base_urls None s
  else pipeline E (firstn 1 base_urls) (Some 5) s.
Proof.
  unfold run, pipeline. destruct (str_eqb mode (lit "full")); reflexivity.
Qed.

(** C8.  In [test] mode exactly the first seed URL is scanned and the
    first five, at most, of the deduplicated documents are processed; in
    [full] mode every seed URL is scanned and every deduplicated document
    is processed; both modes are the same pipeline run on these
    inputs. *)
Theorem run_mode_bounds (E : Env) (s : State) :
  let test := final_state (run E (lit "test") s) in
  let full := final_state (run E (lit "full") s) in
  (searched (trace test) = searched (trace s) ++ firstn 1 base_urls /\
   processed (trace test) =
     processed (trace s)
       ++ map name (firstn 5 (unique_projects
                                (fst (scan E (firstn 1 base_urls) [] s)))) /\
   length (processed (trace test)) <= length (processed (trace s)) + 5) /\
  (searched (trace full) = searched (trace s) ++ base_urls /\
   processed (trace full) =
     processed (trace s)
       ++ map name (unique_projects (fst (scan E base_urls [] s)))) /\
  run E (lit "test") s = pipeline E (firstn 1 base_urls) (Some 5) s /\
  run E (lit "full") s = pipeline E base_urls None s.
Proof.
  cbv zeta. rewrite !run_pipeline.
  change (str_eqb (lit "test") (lit "full")) with false.
  change (str_eqb (lit "full") (lit "full")) with true. cbv iota.
  split; [|split; [|split; reflexivity]].
  - rewrite pipeline_searched, pipeline_processed. unfold documents.
    split; [reflexivity|]. split; [reflexivity|].
    rewrite length_app, length_map, length_firstn. lia.
  - rewrite pipeline_searched, pipeline_processed. split; reflexivity.
Qed.

(** C9.  Every mode string other than the exact string [full] makes
    [run] behave as in [test] mode: only the first seed URL is scanned
    and at most five documents are processed. *)
Theorem run_other_mode_is_test (E : Env) (mode : str) (s : State) :
  mode <> lit "full" ->
  run E mode s = run E (lit "test") s /\
  searched (trace (final_state (run E mode s)))
    = searched (trace s) ++ firstn 1 base_urls /\
  length (processed (trace (final_state (run E mode s))))
    <= length (processed (trace s)) + 5.
Proof.
  intros Hmode. apply str_eqb_neq in Hmode.
  assert (Heq : run E mode s = run E (lit "test") s).
  { rewrite !run_pipeline, Hmode.
    change (str_eqb (lit "test") (lit "full")) with false. reflexivity. }
  split; [exact Heq|].
  rewrite run_pipeline, Hmode, pipeline_searched, pipeline_processed.
  split; [reflexivity|]. unfold documents.
  rewrite length_app, length_map, length_firstn. lia.
Qed.


(* ================================================================== *)
(** ** More about the fetcher *)
(* ================================================================== *)

Lemma gets_app (a b : list Event) : gets (a ++ b) = gets a + gets b.
Proof.
  induction a as [|e a IH]; simpl; [reflexivity|].
  destruct e; simpl; now rewrite IH.
Qed.

Lemma slept_app (a b : list Event) : slept (a ++ b) = slept a + slept b.
Proof.
  induction a as [|e a IH]; simpl; [reflexivity|].
  destruct e; simpl; rewrite IH; lia.
Qed.

Lemma attempt_warnings_app (a b : list Event) :
  attempt_warnings (a ++ b) = attempt_warnings a ++ attempt_warnings b.
Proof. apply flat_map_app. Qed.

Lemma failed_attempts_count (delay : nat) (url : str) (n a : nat) :
  gets (flat_map (failed_attempt delay url) (seq a n)) = n /\
  slept (flat_map (failed_attempt delay url) (seq a n)) = delay * n /\
  attempt_warnings (flat_map (failed_attempt delay url) (seq a n)) = seq (a + 1) n.
Proof.
  revert a. induction n as [|n IH]; intros a; simpl.
  - repeat split. lia.
  - destruct (IH (S a)) as (Hg & Hs & Hw). rewrite Hg, Hs.
    repeat split; [lia|].
    unfold attempt_warnings in *. simpl. rewrite Hw.
    now replace (S a + 1) with (S (a + 1)) by lia.
Qed.

(** How a call of [get_page] ends, for any [retries] and [delay]. *)
Lemma get_page_outcome (E : Env) (url : str) (retries delay : nat) (s : State) :
  let r := fst (get_page E url retries delay s) in
  let s' := snd (get_page E url retries delay s) in
  (r = None /\
   (forall j, j < retries ->
              attempt_fails (http_get E (requests s + j) url) = true) /\
   requests s' = requests s + retries /\
   gets (trace s') = gets (trace s) + retries /\
   slept (trace s') = slept (trace s) + delay * retries /\
   attempt_warnings (trace s') = attempt_warnings (trace s) ++ seq 1 retries)
  \/
  (exists resp j,
      r = Some resp /\ j < retries /\
      (forall k, k < j -> attempt_fails (http_get E (requests s + k) url) = true) /\
      http_get E (requests s + j) url = Responded resp /\
      raise_for_status resp = false /\
      requests s' = requests s + S j /\
      gets (trace s') = gets (trace s) + S j /\
      slept (trace s') = slept (trace s) + delay * S j /\
      attempt_warnings (trace s') = attempt_warnings (trace s) ++ seq 1 j).
Proof.
  cbv zeta. unfold get_page.
  destruct (@get_page_loop_spec E url retries delay retries 0 s eq_refl)
    as [(Hr & Hall & Htr & Hreq)
       | (resp & j & Hr & Hj & Hall & Hget & Hok & Htr & Hreq)].
  - left. destruct (failed_attempts_count delay url retries 0) as (Hg & Hs & Hw).
    rewrite Htr, gets_app, slept_app, attempt_warnings_app, Hg, Hs, Hw.
    repeat split; assumption.
  - right. exists resp, j.
    destruct (failed_attempts_count delay url j 0) as (Hg & Hs & Hw).
    rewrite Htr, !gets_app, !slept_app, !attempt_warnings_app, Hg, Hs, Hw.
    simpl. rewrite app_nil_r.
    repeat split; try assumption; lia.
Qed.

(** X1.  For any [retries] and [delay], [get_page] sends at most
    [retries] requests and sleeps [delay] seconds once per request; it
    returns [None] exactly when every one of the [retries] attempts
    fails, and then it has logged the warnings numbered 1 to [retries].
    With [retries = 0] it sends nothing and returns [None]. *)
Theorem get_page_any_retries (E : Env) (url : str) (retries delay : nat) (s : State) :
  let r := fst (get_page E url retries delay s) in
  let s' := snd (get_page E url retries delay s) in
  exists k,
    k <= retries /\
    requests s' = requests s + k /\
    gets (trace s') = gets (trace s) + k /\
    slept (trace s') = slept (trace s) + delay * k /\
    (r = None <->
     forall j, j < retries ->
               attempt_fails (http_get E (requests s + j) url) = true) /\
    (r = None ->
     k = retries /\
     attempt_warnings (trace s') = attempt_warnings (trace s) ++ seq 1 retries).
Proof.
  cbv zeta.
  destruct (get_page_outcome E url retries delay s)
    as [(Hr & Hall & Hreq & Hg & Hs & Hw)
       | (resp & j & Hr & Hj & Hall & Hget & Hok & Hreq & Hg & Hs & Hw)].
  - exists retries. rewrite Hr.
    split; [lia|]. split; [exact Hreq|]. split; [exact Hg|]. split; [exact Hs|].
    split; [split; [intros _; exact Hall | reflexivity]|].
    intros _. split; [reflexivity | exact Hw].
  - exists (S j). rewrite Hr.
    split; [lia|]. split; [exact Hreq|]. split; [exact Hg|]. split; [exact Hs|].
    split; [split|]; try (intros H; discriminate H).
    intros H. specialize (H j Hj). rewrite Hget in H. simpl in H. congruence.
Qed.

(** X2.  [get_page] stops at the first attempt that does not fail: when
    attempt [j] (counted from 0) is the first one whose request returns a
    response with a status below 400 or above 599, that response is
    returned, exactly [j + 1] requests have been sent, and the warnings
    numbered 1 to [j] have been logged. *)
Theorem get_page_first_success
    (E : Env) (url : str) (retries delay : nat) (s : State)
    (j : nat) (resp : Response) :
  j < retries ->
  (forall k, k < j -> attempt_fails (http_get E (requests s + k) url) = true) ->
  http_get E (requests s + j) url = Responded resp ->
  raise_for_status resp = false ->
  let s' := snd (get_page E url retries delay s) in
  fst (get_page E url retries delay s) = Some resp /\
  requests s' = requests s + S j /\
  slept (trace s') = slept (trace s) + delay * S j /\
  attempt_warnings (trace s') = attempt_warnings (trace s) ++ seq 1 j.
Proof.
  intros Hj Hbefore Hget Hok. cbv zeta.
  assert (Hnf : attempt_fails (http_get E (requests s + j) url) = false)
    by (rewrite Hget; exact Hok).
  destruct (get_page_outcome E url retries delay s)
    as [(Hr & Hall & _)
       | (resp' & j' & Hr & Hj' & Hall & Hget' & Hok' & Hreq & Hg & Hs & Hw)].
  - specialize (Hall j Hj). congruence.
  - assert (j' = j).
    { destruct (Nat.lt_trichotomy j' j) as [Hlt | [Heq | Hgt]]; [|exact Heq|].
      - specialize (Hbefore j' Hlt). rewrite Hget' in Hbefore.
        simpl in Hbefore. congruence.
      - specialize (Hall j Hgt). congruence. }
    subst j'. rewrite Hget in Hget'. injection Hget' as <-.
    repeat split; assumption.
Qed.


(* ================================================================== *)
(** ** Requests and sleeps of a whole run *)
(* ================================================================== *)

Lemma paced_refl (s : State) : paced 0 s s.
Proof. unfold paced. repeat split; lia. Qed.

Lemma paced_trans (k1 k2 : nat) (s1 s2 s3 : State) :
  paced k1 s1 s2 -> paced k2 s2 s3 -> paced (k1 + k2) s1 s3.
Proof. unfold paced. intros (A & B & C) (A' & B' & C'). repeat split; lia. Qed.

Lemma paced_same (s s' : State) :
  trace s' = trace s -> requests s' = requests s -> paced 0 s s'.
Proof. unfold paced. intros -> ->. repeat split; lia. Qed.

Lemma paced_logging (l : Level) (m : Message) (s : State) :
  paced 0 s (logging l m s).
Proof.
  unfold paced. simpl. rewrite gets_app, slept_app. simpl.
  repeat split; lia.
Qed.

Lemma paced_get_page_default (E : Env) (u : str) (s : State) :
  exists k, k <= 3 /\ paced k s (snd (get_page_default E u s)).
Proof.
  unfold get_page_default, paced.
  destruct (get_page_outcome E u default_retries default_delay s)
    as [(_ & _ & Hreq & Hg & Hs & _)
       | (resp & j & _ & Hj & _ & _ & _ & Hreq & Hg & Hs & _)].
  - exists default_retries. unfold default_retries in *. now repeat split.
  - exists (S j). unfold default_retries in *. repeat split; try assumption; lia.
Qed.

Lemma paced_find_project_links (E : Env) (u : str) (s : State) :
  exists k, k <= 3 /\ paced k s (snd (find_project_links E u s)).
Proof.
  unfold find_project_links.
  destruct (paced_get_page_default E u (logging Info (Searching u) s))
    as (k & Hk & Hp).
  pose proof (paced_trans (paced_logging Info (Searching u) s) Hp) as H0.
  destruct (get_page_default E u (logging Info (Searching u) s)) as [[r|] s1];
    cbn [snd] in *; exists k; (split; [exact Hk|]).
  - destruct (negb (truthy r)); cbn [snd]; [exact H0|].
    replace k with (0 + k + 0) by lia.
    exact (paced_trans H0 (paced_logging _ _ _)).
  - exact H0.
Qed.

Lemma paced_scan (E : Env) (urls : list str) (acc : list ProjectLink) (s : State) :
  exists k, k <= 3 * length urls /\ paced k s (snd (scan E urls acc s)).
Proof.
  revert acc s. induction urls as [|u rest IH]; intros acc s; simpl.
  - exists 0. split; [lia | apply paced_refl].
  - destruct (paced_find_project_links E u s) as (k1 & Hk1 & Hp1).
    destruct (find_project_links E u s) as [found s1]. cbn [snd] in Hp1.
    destruct (IH (acc ++ found) s1) as (k2 & Hk2 & Hp2).
    exists (k1 + k2). split; [lia | exact (paced_trans Hp1 Hp2)].
Qed.

Lemma paced_process_pdf (E : Env) (p : ProjectLink) (s : State) :
  exists k, k <= 3 /\ paced k s (process_pdf E p s).
Proof.
  unfold process_pdf.
  destruct (paced_get_page_default E (url p) (logging Info (Processing (name p)) s))
    as (k & Hk & Hp).
  pose proof (paced_trans (paced_logging Info (Processing (name p)) s) Hp) as H0.
  simpl in H0.
  destruct (get_page_default E (url p) (logging Info (Processing (name p)) s))
    as [[r|] s1]; cbn [snd] in *; exists k; (split; [exact Hk|]); [|exact H0].
  destruct (negb (truthy r)); [exact H0|].
  assert (Hw : paced k s (write_raw (pdf_file_name (name p)) (content r) s1))
    by exact H0.
  assert (Hlog : forall l m t, paced k s t -> paced k s (logging l m t)).
  { intros l m t Ht. replace k with (k + 0) by lia.
    exact (paced_trans Ht (paced_logging l m t)). }
  destruct (dict_get _ _) as [bytes|]; [|now apply Hlog].
  destruct (tabula_read_pdf E bytes) as [[|t ts]|]; apply Hlog; try exact Hw.
  destruct (collect_tables_frame E p (pdf_file_name (name p)) (t :: ts) 0
              (write_raw (pdf_file_name (name p)) (content r) s1))
    as (Hreq & Htr & _).
  replace k with (k + 0) by lia.
  exact (paced_trans Hw (@paced_same _ _ Htr Hreq)).
Qed.

Lemma paced_process_each (E : Env) (ps : list ProjectLink) (s : State) :
  exists k, k <= 3 * length ps /\ paced k s (process_each E ps s).
Proof.
  revert s. induction ps as [|p rest IH]; intros s; simpl.
  - exists 0. split; [lia | apply paced_refl].
  - destruct (paced_process_pdf E p s) as (k1 & Hk1 & Hp1).
    destruct (IH (process_pdf E p s)) as (k2 & Hk2 & Hp2).
    exists (k1 + k2). split; [lia | exact (paced_trans Hp1 Hp2)].
Qed.

Lemma paced_write_output (E : Env) (s : State) :
  paced 0 s (final_state (write_output E s)).
Proof.
  unfold write_output. destruct (all_bids s) as [|b bs].
  - apply paced_logging.
  - destruct (concat (b :: bs)) as [final|e]; [|apply paced_refl].
    unfold datetime_now. cbn [final_state].
    match goal with
    | |- paced 0 s (logging ?l ?m ?t) =>
        exact (@paced_trans 0 0 s t _
                 (@paced_same s t eq_refl eq_refl)
                 (paced_logging l m t))
    end.
Qed.

Lemma paced_pipeline (E : Env) (seeds : list str) (cap : option nat) (s : State) :
  exists k,
    k <= 3 * (length seeds + length (documents E seeds cap s)) /\
    paced k s (final_state (pipeline E seeds cap s)).
Proof.
  unfold pipeline, documents.
  destruct (paced_scan E seeds [] s) as (k1 & Hk1 & Hp1).
  destruct (scan E seeds [] s) as [links s1]. cbn [fst snd] in *.
  set (todo := match cap with
               | Some n => firstn n (unique_projects links)
               | None => unique_projects links
               end).
  destruct (paced_process_each E todo
              (logging Info (UniqueFound (length (unique_projects links))) s1))
    as (k2 & Hk2 & Hp2).
  exists (k1 + 0 + k2 + 0). split; [lia|].
  exact (paced_trans
           (paced_trans (paced_trans Hp1 (paced_logging _ _ _)) Hp2)
           (paced_write_output E _)).
Qed.

(** X3.  In every run each GET request comes with its own two-second
    sleep: the seconds slept are twice the number of requests.  A run
    sends at most three requests per scanned seed URL and per processed
    document, hence at most 18 requests in any mode other than [full]. *)
Theorem run_requests_bounded (E : Env) (mode : str) (s : State) :
  let final := final_state (run E mode s) in
  exists k,
    gets (trace final) = gets (trace s) + k /\
    slept (trace final) = slept (trace s) + 2 * k /\
    requests final = requests s + k /\
    (if str_eqb mode (lit "full")
     then k <= 3 * (7 + length (unique_projects (fst (scan E base_urls [] s))))
     else k <= 18).
Proof.
  cbv zeta. rewrite run_pipeline.
  destruct (str_eqb mode (lit "full")).
  - destruct (paced_pipeline E base_urls None s) as (k & Hk & Hg & Hs & Hr).
    exists k. split; [exact Hg|]. split; [exact Hs|]. split; [exact Hr|].
    unfold documents in Hk. change (length base_urls) with 7 in Hk. exact Hk.
  - destruct (paced_pipeline E (firstn 1 base_urls) (Some 5) s)
      as (k & Hk & Hg & Hs & Hr).
    exists k. split; [exact Hg|]. split; [exact Hs|]. split; [exact Hr|].
    unfold documents in Hk. rewrite !length_firstn in Hk.
    change (length base_urls) with 7 in Hk. lia.
Qed.

(* ================================================================== *)
(** ** What scanning and processing leave alone *)
(* ================================================================== *)

Lemma get_page_default_frame (E : Env) (u : str) (s : State) :
  let s' := snd (get_page_default E u s) in
  clock_reads s' = clock_reads s /\ raw_pdfs s' = raw_pdfs s /\
  all_bids s' = all_bids s /\ processed_data s' = processed_data s.
Proof. apply get_page_loop_frame. Qed.

Lemma find_project_links_frame (E : Env) (u : str) (s : State) :
  let s' := snd (find_project_links E u s) in
  clock_reads s' = clock_reads s /\ raw_pdfs s' = raw_pdfs s /\
  all_bids s' = all_bids s /\ processed_data s' = processed_data s.
Proof.
  cbv zeta. unfold find_project_links.
  pose proof (get_page_default_frame E u (logging Info (Searching u) s)) as Hf.
  cbv zeta in Hf.
  destruct (get_page_default E u (logging Info (Searching u) s)) as [[r|] s1];
    cbn [snd] in *; [destruct (negb (truthy r)); cbn [snd]|]; exact Hf.
Qed.

Lemma find_project_links_links (E : Env) (page_url : str) (s : State) :
  fst (find_project_links E page_url s) =
  match fst (get_page_default E page_url (logging Info (Searching page_url) s)) with
  | None => []
  | Some r =>
      map (link_of E page_url) (filter project_anchor (soup_anchors E (content r)))
  end.
Proof.
  unfold find_project_links.
  destruct (get_page_default E page_url (logging Info (Searching page_url) s))
    as [[r|] s1] eqn:Hget; cbn [fst]; [|reflexivity].
  assert (Ht : truthy r = true)
    by (apply (@get_page_default_truthy E page_url
                 (logging Info (Searching page_url) s)); now rewrite Hget).
  rewrite Ht. cbn [negb fst].
  unfold find_all_a_href, project_anchor.
  rewrite <- filter_filter.
  exact (fold_append_filter wanted (link_of E page_url) _ []).
Qed.

Lemma head_ok_app (a b : str) : a <> [] -> head_ok a -> head_ok (a ++ b).
Proof. destruct a; [congruence | trivial]. Qed.

Lemma stripped_concat (l : list str) :
  Forall (fun x => x <> [] /\ stripped x) l -> stripped (List.concat l).
Proof.
  induction 1 as [|x l [Hne [Hh Hr]] _ [IHh IHr]]; simpl.
  - split; exact I.
  - split.
    + now apply head_ok_app.
    + rewrite rev_app_distr.
      destruct (List.concat l) as [|c y] eqn:Hy; [exact Hr|].
      apply head_ok_app; [|exact IHr].
      intros H. apply (f_equal (@rev char)) in H.
      rewrite rev_involutive in H. discriminate H.
Qed.

Lemma get_text_strip_stripped (a : Anchor) : stripped (get_text_strip a).
Proof.
  unfold get_text_strip. apply stripped_concat.
  apply Forall_forall. intros x Hx. apply filter_In in Hx.
  destruct Hx as [Hin Hne]. split.
  - intros ->. discriminate Hne.
  - apply in_map_iff in Hin. destruct Hin as [y [<- _]]. apply strip_stripped.
Qed.

Lemma keywords_nonempty (kw : str) : In kw keywords -> kw <> [].
Proof.
  unfold keywords. simpl. intros H.
  repeat (destruct H as [<-|H]; [discriminate|]). contradiction.
Qed.

Lemma wanted_text_nonempty (a : Anchor) :
  wanted a = true -> get_text_strip a <> [].
Proof.
  unfold wanted. rewrite andb_true_iff, existsb_exists.
  intros [[kw [Hin Hc]] _] Hempty. rewrite Hempty in Hc.
  apply contains_spec in Hc. destruct Hc as [pre [post Hc]].
  apply (keywords_nonempty Hin).
  destruct pre; [|discriminate Hc]. destruct kw; [reflexivity | discriminate Hc].
Qed.

Lemma find_project_links_each (E : Env) (page_url : str) (s : State) (p : ProjectLink) :
  In p (fst (find_project_links E page_url s)) ->
  source p = page_url /\ name p <> [] /\ strip (name p) = name p.
Proof.
  intros Hp. rewrite find_project_links_links in Hp.
  destruct (fst (get_page_default E page_url _)) as [r|]; [|contradiction].
  apply in_map_iff in Hp. destruct Hp as [a [<- Ha]].
  apply filter_In in Ha. destruct Ha as [_ Ha].
  unfold project_anchor in Ha. apply andb_true_iff in Ha. destruct Ha as [_ Hw].
  split; [reflexivity|]. split.
  - now apply wanted_text_nonempty.
  - apply stripped_fixed, get_text_strip_stripped.
Qed.

(** X4.  Every link that [find_project_links] returns records the page
    it was found on as its [source], and its [name] is not empty and has
    no white space at either end.  The call itself writes no file and
    leaves the collected tables and the output files as they were. *)
Theorem find_project_links_wellformed (E : Env) (page_url : str) (s : State) :
  (forall p, In p (fst (find_project_links E page_url s)) ->
             source p = page_url /\ name p <> [] /\ strip (name p) = name p) /\
  raw_pdfs (snd (find_project_links E page_url s)) = raw_pdfs s /\
  all_bids (snd (find_project_links E page_url s)) = all_bids s /\
  processed_data (snd (find_project_links E page_url s)) = processed_data s.
Proof.
  split.
  - intros p. apply find_project_links_each.
  - destruct (find_project_links_frame E page_url s) as (_ & H1 & H2 & H3).
    now repeat split.
Qed.

Lemma scan_frame (E : Env) (urls : list str) (acc : list ProjectLink) (s : State) :
  let s' := snd (scan E urls acc s) in
  clock_reads s' = clock_reads s /\ raw_pdfs s' = raw_pdfs s /\
  all_bids s' = all_bids s /\ processed_data s' = processed_data s.
Proof.
  cbv zeta. revert acc s. induction urls as [|u rest IH]; intros acc s; simpl.
  - now repeat split.
  - destruct (find_project_links_frame E u s) as (H1 & H2 & H3 & H4).
    destruct (find_project_links E u s) as [found s1]. cbn [snd] in *.
    destruct (IH (acc ++ found) s1) as (G1 & G2 & G3 & G4).
    repeat split; congruence.
Qed.

Lemma scan_sources (E : Env) (urls : list str) (acc : list ProjectLink) (s : State) :
  exists found,
    fst (scan E urls acc s) = acc ++ found /\
    forall p, In p found -> In (source p) urls.
Proof.
  revert acc s. induction urls as [|u rest IH]; intros acc s; simpl.
  - exists []. split; [now rewrite app_nil_r | contradiction].
  - pose proof (@find_project_links_each E u s) as Hsrc.
    destruct (find_project_links E u s) as [found s1]. cbn [fst] in Hsrc.
    destruct (IH (acc ++ found) s1) as (more & Hm & Hin).
    exists (found ++ more). split; [now rewrite Hm, app_assoc|].
    intros p Hp. apply in_app_or in Hp. destruct Hp as [Hp|Hp].
    + left. symmetry. now apply Hsrc.
    + right. now apply Hin.
Qed.

Lemma process_pdf_processed_data (E : Env) (p : ProjectLink) (s : State) :
  processed_data (process_pdf E p s) = processed_data s.
Proof.
  unfold process_pdf.
  destruct (get_page_default_frame E (url p) (logging Info (Processing (name p)) s))
    as (_ & _ & _ & Hpd).
  destruct (get_page_default E (url p) (logging Info (Processing (name p)) s))
    as [[r|] s1]; cbn [snd] in *; [|exact Hpd].
  destruct (negb (truthy r)); [exact Hpd|].
  assert (Hlog : forall l m t, processed_data (logging l m t) = processed_data t)
    by reflexivity.
  destruct (dict_get _ _) as [bytes|]; [|rewrite Hlog; exact Hpd].
  destruct (tabula_read_pdf E bytes) as [[|t ts]|]; rewrite Hlog; try exact Hpd.
  match goal with
  | |- context [collect_tables E p ?f 0 ?tabs ?t0] =>
      destruct (collect_tables_frame E p f tabs 0 t0) as (_ & _ & _ & H4)
  end.
  rewrite H4. exact Hpd.
Qed.

Lemma process_each_grows (E : Env) (ps : list ProjectLink) (s : State) :
  processed_data (process_each E ps s) = processed_data s /\
  exists more, all_bids (process_each E ps s) = all_bids s ++ more.
Proof.
  revert s. induction ps as [|p rest IH]; intros s; simpl.
  - split; [reflexivity | exists []; now rewrite app_nil_r].
  - destruct (IH (process_pdf E p s)) as (Hpd & more & Hm).
    destruct (process_pdf_stored E p s) as (stored & Hs & _).
    split; [now rewrite Hpd, process_pdf_processed_data|].
    exists (stored ++ more). now rewrite Hm, Hs, app_assoc.
Qed.

Lemma write_output_end (E : Env) (s : State) :
  all_bids (final_state (write_output E s)) = all_bids s /\
  raw_pdfs (final_state (write_output E s)) = raw_pdfs s /\
  match write_output E s with
  | Returned s' =>
      match all_bids s with
      | [] => processed_data s' = processed_data s
      | _ :: _ =>
          exists stamp df,
            concat (all_bids s) = Ok df /\
            processed_data s' = processed_data s ++ [(stamp, df)]
      end
  | Raised e s' =>
      all_bids s <> [] /\ concat (all_bids s) = Raise e /\
      processed_data s' = processed_data s
  end.
Proof.
  unfold write_output. destruct (all_bids s) as [|b bs] eqn:Hb.
  - cbn. now rewrite Hb.
  - destruct (concat (b :: bs)) as [df|e] eqn:Hc.
    + cbn. rewrite Hb. repeat split.
      exists (now E (clock_reads s)), df. split; reflexivity.
    + cbn. rewrite Hb. repeat split. discriminate.
Qed.


(* ================================================================== *)
(** ** A run in which no request succeeds *)
(* ================================================================== *)

Section Unreachable.

Variable E : Env.
Hypothesis Hdown : forall n u, attempt_fails (http_get E n u) = true.

Lemma get_page_default_down (u : str) (s : State) :
  fst (get_page_default E u s) = None /\
  requests (snd (get_page_default E u s)) = requests s + 3.
Proof.
  unfold get_page_default.
  destruct (get_page_outcome E u default_retries default_delay s)
    as [(Hr & _ & Hreq & _) | (resp & j & _ & _ & _ & Hget & Hok & _)].
  - split; assumption.
  - specialize (Hdown (requests s + j) u). rewrite Hget in Hdown.
    simpl in Hdown. congruence.
Qed.

Lemma find_project_links_down (u : str) (s : State) :
  fst (find_project_links E u s) = [] /\
  requests (snd (find_project_links E u s)) = requests s + 3.
Proof.
  unfold find_project_links.
  destruct (get_page_default_down u (logging Info (Searching u) s)) as (Hr & Hq).
  destruct (get_page_default E u (logging Info (Searching u) s)) as [r s1].
  cbn [fst snd] in *. subst r. split; [reflexivity | exact Hq].
Qed.

Lemma scan_down (urls : list str) (acc : list ProjectLink) (s : State) :
  fst (scan E urls acc s) = acc /\
  requests (snd (scan E urls acc s)) = requests s + 3 * length urls.
Proof.
  revert acc s. induction urls as [|u rest IH]; intros acc s; simpl.
  - split; [reflexivity | lia].
  - destruct (find_project_links_down u s) as (Hf & Hq).
    destruct (find_project_links E u s) as [found s1]. cbn [fst snd] in *.
    subst found. rewrite app_nil_r.
    destruct (IH acc s1) as (H1 & H2). split; [exact H1 | lia].
Qed.

End Unreachable.

(** X6.  When every request fails (the server cannot be reached, or it
    answers each request with a 4xx or 5xx status) and no table has been
    collected before, [run] returns without raising, has sent exactly
    three requests per scanned seed URL (21 in [full] mode, 3 otherwise),
    has written no document and no output table, and has collected
    nothing. *)
Theorem run_when_nothing_answers (E : Env) (mode : str) (s : State) :
  (forall n u, attempt_fails (http_get E n u) = true) ->
  all_bids s = [] ->
  exists s',
    run E mode s = Returned s' /\
    all_bids s' = [] /\
    raw_pdfs s' = raw_pdfs s /\
    processed_data s' = processed_data s /\
    requests s' = requests s + (if str_eqb mode (lit "full") then 21 else 3).
Proof.
  intros Hdown Hempty. rewrite run_pipeline.
  assert (H : forall seeds cap,
    exists s',
      pipeline E seeds cap s = Returned s' /\
      all_bids s' = [] /\ raw_pdfs s' = raw_pdfs s /\
      processed_data s' = processed_data s /\
      requests s' = requests s + 3 * length seeds).
  { intros seeds cap. unfold pipeline.
    destruct (scan_down E Hdown seeds [] s) as (Hl & Hq).
    destruct (scan_frame E seeds [] s) as (_ & Hraw & Hab & Hpd).
    destruct (scan E seeds [] s) as [links s1]. cbn [fst snd] in *. subst links.
    change (unique_projects []) with (@nil ProjectLink).
    assert (Htodo : match cap with
                    | Some n => firstn n (@nil ProjectLink)
                    | None => []
                    end = []) by (destruct cap as [n|]; [apply firstn_nil | reflexivity]).
    rewrite Htodo. cbn [process_each].
    unfold write_output. cbn [all_bids logging emit]. rewrite Hab, Hempty.
    eexists. split; [reflexivity|]. cbn.
    rewrite Hab, Hempty, Hraw, Hpd, Hq. repeat split. }
  destruct (str_eqb mode (lit "full")).
  - destruct (H base_urls None) as (s' & H1 & H2 & H3 & H4 & H5).
    exists s'. repeat split; assumption.
  - destruct (H (firstn 1 base_urls) (Some 5)) as (s' & H1 & H2 & H3 & H4 & H5).
    exists s'. repeat split; assumption.
Qed.


(* ================================================================== *)
(** ** Files below [raw_pdfs] *)
(* ================================================================== *)

Section DictFacts.

Context {V : Type}.

Lemma dict_set_length (k : str) (v : V) (d : list (str * V)) :
  length (dict_set k v d) = if mem k (map fst d) then length d else S (length d).
Proof.
  rewrite <- (length_map fst (dict_set k v d)), dict_set_keys.
  destruct (mem k (map fst d)); rewrite ?length_app, length_map; simpl; lia.
Qed.

Lemma dict_set_keeps_keys (k k' : str) (v : V) (d : list (str * V)) :
  In k' (map fst d) -> In k' (map fst (dict_set k v d)).
Proof.
  rewrite dict_set_keys. destruct (mem k (map fst d)); [trivial|].
  intros H. apply in_or_app. now left.
Qed.

Lemma dict_set_has_key (k : str) (v : V) (d : list (str * V)) :
  mem k (map fst (dict_set k v d)) = true.
Proof.
  rewrite dict_set_keys. destruct (mem k (map fst d)) eqn:Hm; [exact Hm|].
  rewrite mem_app, mem_single, str_eqb_refl. apply orb_true_r.
Qed.

End DictFacts.

(** X7.  [process_pdf] never removes a stored document and never changes
    one stored under another name than the one derived from the project;
    it adds at most one file. *)
Theorem process_pdf_keeps_files (E : Env) (p : ProjectLink) (s : State) :
  (forall f, In f (map fst (raw_pdfs s)) ->
             In f (map fst (raw_pdfs (process_pdf E p s)))) /\
  (forall f, f <> pdf_file_name (name p) ->
             dict_get f (raw_pdfs (process_pdf E p s)) = dict_get f (raw_pdfs s)) /\
  length (raw_pdfs (process_pdf E p s)) <= length (raw_pdfs s) + 1.
Proof.
  rewrite process_pdf_raw_pdfs.
  destruct (fst (get_page_default E (url p) _)) as [r|].
  - split; [|split].
    + intros f. apply dict_set_keeps_keys.
    + intros f Hf. rewrite dict_get_set.
      destruct (str_eqb (pdf_file_name (name p)) f) eqn:He; [|reflexivity].
      apply str_eqb_eq in He. congruence.
    + rewrite dict_set_length. destruct (mem _ _); lia.
  - split; [trivial|]. split; [reflexivity | lia].
Qed.

(** X8.  Two projects whose names give the same file name share one
    file: after both have been processed, the second download having
    succeeded, the file holds the bytes of the second project, and the
    two projects together have added at most one file. *)
Theorem colliding_names_overwrite
    (E : Env) (p1 p2 : ProjectLink) (s : State) (r : Response) :
  pdf_file_name (name p1) = pdf_file_name (name p2) ->
  fst (get_page_default E (url p2)
         (logging Info (Processing (name p2)) (process_pdf E p1 s))) = Some r ->
  dict_get (pdf_file_name (name p1)) (raw_pdfs (process_each E [p1; p2] s))
    = Some (content r) /\
  length (raw_pdfs (process_each E [p1; p2] s)) <= length (raw_pdfs s) + 1.
Proof.
  intros Hsame Hget. cbn [process_each].
  rewrite (process_pdf_raw_pdfs E p2 (process_pdf E p1 s)), Hget, <- Hsame.
  split.
  - now rewrite dict_get_set, str_eqb_refl.
  - rewrite dict_set_length, process_pdf_raw_pdfs.
    destruct (fst (get_page_default E (url p1) _)) as [r1|].
    + rewrite dict_set_has_key, dict_set_length. destruct (mem _ _); lia.
    + destruct (mem _ _); lia.
Qed.


Lemma In_firstn {A : Type} (n : nat) (l : list A) (x : A) :
  In x (firstn n l) -> In x l.
Proof.
  revert l. induction n as [|n IH]; intros [|y l]; simpl; try tauto.
  intros [H|H]; [now left | right; now apply IH].
Qed.

Lemma keep_char_file_safe (c : char) :
  keep_char c = true -> file_safe (if (c =? SP)%N then US else c) = true.
Proof.
  unfold file_safe. intros H. destruct (N.eqb_spec c SP) as [->|Hne].
  - unfold isword. rewrite N.eqb_refl, orb_true_r. reflexivity.
  - apply N.eqb_neq in Hne. unfold keep_char in H. now rewrite H, Hne.
Qed.

Lemma file_safe_ascii (c : char) :
  (c < 128)%N ->
  file_safe c = (ascii_alnum c || (c =? US)%N || isspace c || (c =? HY)%N)
                && negb (c =? SP)%N.
Proof.
  intros H. unfold file_safe, isword. now rewrite (isalnum_ascii H).
Qed.

(** X9.  The stored file name is a stem of at most 100 characters, no
    longer than the project's name, followed by [.pdf]; the stem holds
    only word characters, hyphens and white space other than the space
    (tabs, line breaks and no-break spaces of the name are kept), so the
    file name contains neither a slash nor a space. *)
Theorem pdf_file_name_safe (n : str) :
  exists stem,
    pdf_file_name n = stem ++ lit ".pdf" /\
    length stem <= 100 /\
    length stem <= length n /\
    Forall (fun c => file_safe c = true) stem /\
    ~ In SLASH (pdf_file_name n) /\
    ~ In SP (pdf_file_name n).
Proof.
  exists (replace SP US (slice_to 100 (re_sub_strip n))).
  assert (Hsafe : Forall (fun c => file_safe c = true)
                    (replace SP US (slice_to 100 (re_sub_strip n)))).
  { unfold replace, slice_to, re_sub_strip. apply Forall_forall.
    intros c Hc. apply in_map_iff in Hc. destruct Hc as [c0 [<- Hc0]].
    apply keep_char_file_safe.
    apply In_firstn in Hc0.
    apply filter_In in Hc0. now destruct Hc0. }
  assert (Hslash : file_safe SLASH = false)
    by (rewrite file_safe_ascii; reflexivity).
  assert (Hspace : file_safe SP = false)
    by (rewrite file_safe_ascii; reflexivity).
  split; [reflexivity|].
  split; [unfold replace, slice_to; rewrite length_map; apply firstn_le_length|].
  split.
  { unfold replace, slice_to, re_sub_strip. rewrite length_map, length_firstn.
    pose proof (filter_length_le keep_char n). lia. }
  split; [exact Hsafe|].
  rewrite Forall_forall in Hsafe.
  split; intros Hin; unfold pdf_file_name in Hin; apply in_app_or in Hin;
    destruct Hin as [Hin|Hin].
  - apply Hsafe in Hin. congruence.
  - vm_compute in Hin. repeat (destruct Hin as [Hin|Hin]; [discriminate Hin|]).
    contradiction.
  - apply Hsafe in Hin. congruence.
  - vm_compute in Hin. repeat (destruct Hin as [Hin|Hin]; [discriminate Hin|]).
    contradiction.
Qed.

(* ================================================================== *)
(** ** Shape of a normalised header *)
(* ================================================================== *)

(** X10.  A normalised column header contains no space, carriage return
    or newline, consists of code points that lower-casing leaves as they
    are, and has no white space at either end. *)
Theorem clean_column_shape (col : str) :
  Forall (fun c => c <> SP /\ c <> CR /\ c <> LF /\ lower [c] = [c])
    (clean_column col) /\
  lower (clean_column col) = clean_column col /\
  strip (clean_column col) = clean_column col.
Proof.
  split; [|split].
  - apply Forall_forall. intros c Hc.
    destruct (clean_column_chars col c Hc) as (Hs & H1 & H2 & H3).
    repeat split; try assumption. now apply settled_lower.
  - apply lower_in_fixed. intros c Hc. apply (clean_column_chars col c Hc).
  - apply stripped_fixed, clean_column_stripped.
Qed.

(* ================================================================== *)
(** ** Rows of an annotated table *)
(* ================================================================== *)

Lemma assign_all_rows_fresh (lvs : list (str * Cell)) (df : DataFrame) :
  NoDup (map fst lvs) ->
  (forall l, In l (map fst lvs) -> ~ In l (columns df)) ->
  rows (assign_all lvs df) = map (fun r => r ++ map snd lvs) (rows df).
Proof.
  revert df. induction lvs as [|[l v] rest IH]; intros df Hnd Hfresh.
  - simpl. rewrite <- (map_id (rows df)) at 1.
    apply map_ext. intros r. now rewrite app_nil_r.
  - inversion Hnd as [|? ? Hnotin Hnd']; subst.
    change (assign_all ((l, v) :: rest) df)
      with (assign_all rest (setitem l v df)).
    assert (Hm : mem l (columns df) = false)
      by (apply mem_false, Hfresh; now left).
    rewrite IH; [| exact Hnd' |].
    + unfold setitem. rewrite Hm. cbn [rows]. rewrite map_map.
      apply map_ext. intros r. now rewrite <- app_assoc.
    + intros l' Hl'. rewrite setitem_columns, Hm. intros Hin.
      apply in_app_or in Hin. destruct Hin as [Hin|[Hin|[]]].
      * apply (Hfresh l'); [now right | exact Hin].
      * subst l'. contradiction.
Qed.

(** X11.  On a table none of whose raw headers is a provenance label,
    [process_pdf] leaves every original cell where it was and appends to
    each row, in this order, the project name, the project URL, the file
    name, the table index and the time stamp. *)
Theorem annotate_appends_provenance
    (project : ProjectLink) (file : str) (i stamp : nat) (df : DataFrame) :
  no_clash df ->
  rows (annotate project file i stamp df) =
    map (fun r => r ++ provenance_cells project file i stamp) (rows df) /\
  columns (annotate project file i stamp df) =
    map clean_column (columns df) ++ provenance_columns.
Proof.
  intros Hno. split.
  - rewrite annotate_assign.
    change (rows (rename_columns ?f ?d)) with (rows d).
    apply assign_all_rows_fresh; [exact provenance_NoDup | exact Hno].
  - rewrite annotate_columns, (fresh_labels_no_clash Hno), map_app.
    now rewrite clean_provenance.
Qed.


Lemma set_labelled_length (l : str) (v : Cell) (cols : list str) (row : list Cell) :
  length (set_labelled l v cols row) = length row.
Proof.
  revert row. induction cols as [|c cols IH]; intros [|x row]; simpl;
    try reflexivity.
  now rewrite IH.
Qed.

Lemma setitem_well_formed (l : str) (v : Cell) (df : DataFrame) :
  well_formed df -> well_formed (setitem l v df).
Proof.
  unfold well_formed, setitem. intros H.
  destruct (mem l (columns df)); cbn [rows columns];
    apply Forall_forall; intros r Hr; apply in_map_iff in Hr;
    destruct Hr as [r0 [<- Hr0]]; rewrite Forall_forall in H;
    specialize (H r0 Hr0).
  - now rewrite set_labelled_length.
  - rewrite !length_app, H. reflexivity.
Qed.

Lemma annotate_well_formed (project : ProjectLink) (file : str) (i stamp : nat)
    (df : DataFrame) :
  well_formed df -> well_formed (annotate project file i stamp df).
Proof.
  intros H. unfold annotate.
  assert (Hren : forall d, well_formed d -> well_formed (rename_columns clean_column d)).
  { intros d Hd. unfold well_formed, rename_columns in *. cbn [rows columns].
    now rewrite length_map. }
  apply Hren. now repeat apply setitem_well_formed.
Qed.

Lemma collect_tables_well_formed_all
    (E : Env) (project : ProjectLink) (file : str) (i : nat)
    (tables : list DataFrame) (s : State) :
  Forall well_formed tables ->
  Forall well_formed (all_bids s) ->
  Forall well_formed (all_bids (collect_tables E project file i tables s)).
Proof.
  revert i s. induction tables as [|df rest IH]; intros i s Ht Hs; simpl.
  - exact Hs.
  - inversion Ht as [|? ? Hdf Hrest]; subst.
    destruct (skipped df); [now apply IH|].
    apply IH; [exact Hrest|]. cbn [all_bids append_bid datetime_now].
    apply Forall_app. split; [exact Hs|].
    constructor; [now apply annotate_well_formed | constructor].
Qed.

(** [pandas.concat], when it succeeds on well-formed tables, gives a
    well-formed table: every output row has exactly one cell per output
    label. *)
Lemma concat_well_formed (frames : list DataFrame) (df : DataFrame) :
  Forall well_formed frames ->
  concat frames = Ok df ->
  well_formed df.
Proof.
  intros Hwf. unfold concat. destruct frames as [|f rest]; [discriminate|].
  destruct (same_columns (f :: rest)) eqn:Hsame.
  - intros H. injection H as <-. unfold well_formed.
    apply Forall_forall. intros r Hr.
    change (In r (flat_map rows (f :: rest))) in Hr.
    change (length r = length (columns f)).
    apply in_flat_map in Hr. destruct Hr as [g [Hg Hr]].
    rewrite Forall_forall in Hwf. specialize (Hwf g Hg).
    unfold well_formed in Hwf. rewrite Forall_forall in Hwf.
    rewrite (Hwf r Hr). now rewrite (same_columns_all Hsame Hg).
  - destruct (forallb _ _); [|discriminate].
    intros H. injection H as <-. unfold well_formed.
    apply Forall_forall. intros r Hr.
    change (In r (flat_map
                    (fun g => map (reindex (columns g) (union_columns (f :: rest)))
                                (rows g)) (f :: rest))) in Hr.
    change (length r = length (union_columns (f :: rest))).
    apply in_flat_map in Hr. destruct Hr as [g [_ Hr]].
    apply in_map_iff in Hr. destruct Hr as [r0 [<- _]].
    unfold reindex. apply length_map.
Qed.


(* ================================================================== *)
(** ** More about deduplication *)
(* ================================================================== *)

Lemma dict_set_fresh {V : Type} (k : str) (v : V) (d : list (str * V)) :
  mem k (map fst d) = false -> dict_set k v d = d ++ [(k, v)].
Proof.
  induction d as [|[k1 v1] d IH]; simpl; [reflexivity|].
  rewrite (str_eqb_sym k k1). destruct (str_eqb k1 k); simpl; [discriminate|].
  intros H. now rewrite IH.
Qed.

Lemma by_url_distinct (links : list ProjectLink) :
  NoDup (map url links) -> by_url links = map (fun p => (url p, p)) links.
Proof.
  induction links as [|p links IH] using rev_ind; intros Hnd; [reflexivity|].
  rewrite map_app in Hnd. simpl in Hnd.
  pose proof (NoDup_remove_1 _ _ _ Hnd) as H1.
  pose proof (NoDup_remove_2 _ _ _ Hnd) as H2.
  rewrite app_nil_r in H1, H2.
  rewrite by_url_snoc, (IH H1), map_app. simpl.
  apply dict_set_fresh. rewrite map_map. simpl.
  now apply mem_false.
Qed.

Lemma unique_projects_distinct (links : list ProjectLink) :
  NoDup (map url links) -> unique_projects links = links.
Proof.
  intros Hnd. unfold unique_projects. fold (by_url links).
  rewrite (@by_url_distinct links Hnd). unfold dict_values. rewrite map_map. simpl.
  apply map_id.
Qed.

Lemma unique_projects_urls (links : list ProjectLink) :
  map url (unique_projects links) = first_occurrences (map url links).
Proof.
  unfold unique_projects. fold (by_url links).
  now rewrite by_url_urls, by_url_keys.
Qed.

Lemma first_occurrences_length (l : list str) :
  length (first_occurrences l) <= length l.
Proof.
  induction l as [|c r IH]; simpl; [lia|].
  pose proof (filter_length_le (fun x => negb (str_eqb x c)) (first_occurrences r)).
  lia.
Qed.

(** X12.  Deduplication changes nothing exactly when the URLs of the
    links are already pairwise distinct; applying it twice is the same as
    applying it once; and it never makes the list longer. *)
Theorem unique_projects_stable (links : list ProjectLink) :
  (unique_projects links = links <-> NoDup (map url links)) /\
  unique_projects (unique_projects links) = unique_projects links /\
  length (unique_projects links) <= length links.
Proof.
  assert (Hnd : NoDup (map url (unique_projects links)))
    by (rewrite unique_projects_urls; apply first_occurrences_NoDup).
  split; [split|split].
  - intros H. now rewrite <- H.
  - apply unique_projects_distinct.
  - now apply unique_projects_distinct.
  - rewrite <- (length_map url (unique_projects links)), unique_projects_urls.
    rewrite <- (length_map url links). apply first_occurrences_length.
Qed.

Lemma unique_projects_In (links : list ProjectLink) (p : ProjectLink) :
  In p (unique_projects links) -> In p links.
Proof.
  unfold unique_projects. fold (by_url links). unfold dict_values.
  intros H. apply in_map_iff in H. destruct H as [[k q] [Hq Hin]].
  simpl in Hq. subst q.
  assert (Hnd : NoDup (map fst (by_url links)))
    by (rewrite by_url_keys; apply first_occurrences_NoDup).
  pose proof (In_dict_get k p _ Hnd Hin) as Hg.
  rewrite by_url_get in Hg. unfold last_with_url in Hg.
  apply find_some in Hg. destruct Hg as [Hg _]. now apply in_rev.
Qed.

(** X13.  Every document that a run works on was found on one of the
    seed pages it scanned: it is one of the links returned by the scan,
    and its [source] is among the scanned seed URLs. *)
Theorem documents_come_from_seeds
    (E : Env) (seeds : list str) (cap : option nat) (s : State) (p : ProjectLink) :
  In p (documents E seeds cap s) ->
  In p (fst (scan E seeds [] s)) /\ In (source p) seeds.
Proof.
  unfold documents. intros Hp.
  assert (Hu : In p (unique_projects (fst (scan E seeds [] s))))
    by (destruct cap as [n|]; [now apply In_firstn in Hp | exact Hp]).
  apply unique_projects_In in Hu. split; [exact Hu|].
  destruct (scan_sources E seeds [] s) as (found & Hf & Hsrc).
  rewrite Hf in Hu. now apply Hsrc.
Qed.


(* ================================================================== *)
(** ** Table index and time stamp *)
(* ================================================================== *)

Section CollectMore.

Variables (E : Env) (project : ProjectLink) (file : str).

Lemma collect_tables_app (a b : list DataFrame) (i : nat) (s : State) :
  collect_tables E project file i (a ++ b) s
  = collect_tables E project file (i + length a) b
      (collect_tables E project file i a s).
Proof.
  revert i s. induction a as [|df a IH]; intros i s; simpl.
  - now rewrite Nat.add_0_r.
  - replace (i + S (length a)) with (S i + length a) by lia.
    destruct (skipped df); apply IH.
Qed.

Lemma collect_tables_clock (tables : list DataFrame) (i : nat) (s : State) :
  clock_reads (collect_tables E project file i tables s)
  = clock_reads s + length (filter accepted tables).
Proof.
  revert i s. induction tables as [|df rest IH]; intros i s; simpl; [lia|].
  unfold accepted at 1. destruct (skipped df); simpl.
  - apply IH.
  - rewrite IH. simpl. lia.
Qed.

End CollectMore.

(** X14.  The table index recorded with an accepted table is its
    position among all the tables that the extractor returned for the
    document, the discarded ones counted too, while the clock is read
    once per accepted table only. *)
Theorem table_index_counts_discarded
    (E : Env) (project : ProjectLink) (file : str)
    (before after : list DataFrame) (df : DataFrame) (s : State) :
  accepted df = true ->
  In (annotate project file (length before)
        (now E (clock_reads s + length (filter accepted before))) df)
     (all_bids (collect_tables E project file 0 (before ++ df :: after) s)) /\
  clock_reads (collect_tables E project file 0 (before ++ df :: after) s)
    = clock_reads s + length (filter accepted (before ++ df :: after)).
Proof.
  intros Hacc. split; [|apply collect_tables_clock].
  rewrite collect_tables_app. simpl.
  unfold accepted in Hacc. apply negb_true_iff in Hacc. rewrite Hacc.
  cbn [datetime_now].
  rewrite collect_tables_clock.
  match goal with
  | |- In ?x (all_bids (collect_tables E project file ?i after ?t)) =>
      destruct (collect_tables_stored E project file after i t)
        as (stored & Hs & _)
  end.
  rewrite Hs. cbn [all_bids append_bid].
  apply in_or_app. left. apply in_or_app. right. now left.
Qed.


(* ================================================================== *)
(** ** Case of anchor text and target *)
(* ================================================================== *)

Lemma blur_lower_in (before s after : str) :
  map unsigma (lower_in before s after) = flat_map lower_blur s.
Proof.
  revert before. induction s as [|c s IH]; intros before; simpl; [reflexivity|].
  rewrite map_app, IH. f_equal. unfold lower_blur.
  destruct (c =? SIGMA)%N; [|reflexivity].
  now destruct (final_sigma before (s ++ after)).
Qed.

Lemma unsigma_eqb (k c : char) :
  k <> FINAL_SIGMA -> k <> SMALL_SIGMA -> (k =? unsigma c)%N = (k =? c)%N.
Proof.
  intros H1 H2. unfold unsigma.
  destruct (N.eqb_spec c FINAL_SIGMA) as [->|]; [|reflexivity].
  apply N.eqb_neq in H1, H2. now rewrite H1, H2.
Qed.

Lemma startswith_unsigma (p s : str) :
  sigma_free p -> startswith (map unsigma s) p = startswith s p.
Proof.
  revert s. induction p as [|k p IH]; intros s Hp; destruct s as [|c s];
    try reflexivity.
  simpl. destruct (Hp k (or_introl eq_refl)) as (H1 & H2).
  rewrite (unsigma_eqb c H1 H2), IH; [reflexivity|].
  intros k' Hk'. apply Hp. now right.
Qed.

Lemma contains_unsigma (p s : str) :
  sigma_free p -> contains (map unsigma s) p = contains s p.
Proof.
  intros Hp. induction s as [|c s IH].
  - rewrite !contains_nil. exact (startswith_unsigma [] Hp).
  - change (map unsigma (c :: s)) with (unsigma c :: map unsigma s).
    rewrite !contains_cons, IH. f_equal.
    exact (startswith_unsigma (c :: s) Hp).
Qed.

Lemma lstrip_flat_map (h : char -> str) (s : str) :
  keeps_space h -> lstrip (flat_map h s) = flat_map h (lstrip s).
Proof.
  intros [Hsp Hbl]. induction s as [|c s IH]; [reflexivity|].
  simpl. destruct (isspace c) eqn:Hc.
  - rewrite (Hsp c Hc). simpl. now rewrite Hc.
  - destruct (Hbl c Hc) as (Hne & Hall).
    destruct (h c) as [|d ds] eqn:Hh; [congruence|].
    simpl. rewrite (Hall d (or_introl eq_refl)).
    simpl. now rewrite Hh.
Qed.

Lemma rev_flat_map (h : char -> str) (s : str) :
  rev (flat_map h s) = flat_map (fun c => rev (h c)) (rev s).
Proof.
  induction s as [|c s IH]; [reflexivity|].
  simpl. rewrite rev_app_distr, IH, flat_map_app. simpl.
  now rewrite app_nil_r.
Qed.

Lemma keeps_space_rev (h : char -> str) :
  keeps_space h -> keeps_space (fun c => rev (h c)).
Proof.
  intros [Hsp Hbl]. split.
  - intros c Hc. now rewrite (Hsp c Hc).
  - intros c Hc. destruct (Hbl c Hc) as (Hne & Hall). split.
    + intros H. apply Hne. apply (f_equal (@rev char)) in H.
      now rewrite rev_involutive in H.
    + intros d Hd. apply Hall. now apply in_rev.
Qed.

Lemma strip_flat_map (h : char -> str) (s : str) :
  keeps_space h -> strip (flat_map h s) = flat_map h (strip s).
Proof.
  intros Hh. unfold strip, rstrip.
  rewrite (lstrip_flat_map _ Hh), rev_flat_map.
  rewrite (lstrip_flat_map _ (keeps_space_rev Hh)), rev_flat_map.
  apply flat_map_ext. intros c. apply rev_involutive.
Qed.

Lemma lower_blur_keeps_space : keeps_space lower_blur.
Proof.
  split.
  - intros c Hc. unfold lower_blur. rewrite (space_not_sigma c Hc).
    destruct (space_plain c Hc) as (-> & _). simpl. unfold unsigma.
    destruct (N.eqb_spec c FINAL_SIGMA) as [->|]; [discriminate Hc | reflexivity].
  - intros c Hc. unfold lower_blur. destruct (c =? SIGMA)%N.
    + split; [discriminate|]. intros d [<-|[]]. reflexivity.
    + split.
      * pose proof (lower_map_nonempty c).
        destruct (lower_map c); [congruence | discriminate].
      * intros d Hd. apply in_map_iff in Hd. destruct Hd as [d0 [<- Hd0]].
        pose proof (lower_map_black c d0 Hc Hd0) as H0.
        unfold unsigma. now destruct (d0 =? FINAL_SIGMA)%N.
Qed.

Lemma flat_map_blur_nil (s : str) :
  str_eqb (flat_map lower_blur s) [] = str_eqb s [].
Proof.
  destruct s as [|c s]; [reflexivity|].
  destruct lower_blur_keeps_space as [Hsp Hbl]. simpl.
  destruct (isspace c) eqn:Hc.
  - now rewrite (Hsp c Hc).
  - destruct (Hbl c Hc) as (Hne & _).
    now destruct (lower_blur c).
Qed.

Lemma flat_map_concat {A B : Type} (h : A -> list B) (l : list (list A)) :
  flat_map h (List.concat l) = List.concat (map (flat_map h) l).
Proof.
  induction l as [|x l IH]; [reflexivity|].
  simpl. now rewrite flat_map_app, IH.
Qed.

(** The lower-cased visible text of an anchor, sigmas not told apart, is
    got from the lower-cased text nodes. *)
Lemma blur_get_text_strip (a : Anchor) :
  map unsigma (lower (get_text_strip a)) =
  List.concat (filter (fun t => negb (str_eqb t []))
                 (map strip (map (fun x => map unsigma (lower x)) (strings a)))).
Proof.
  unfold get_text_strip, lower.
  rewrite blur_lower_in, flat_map_concat. f_equal.
  induction (strings a) as [|x l IH]; [reflexivity|].
  simpl. rewrite blur_lower_in.
  rewrite (strip_flat_map x lower_blur_keeps_space), flat_map_blur_nil.
  destruct (str_eqb (strip x) []); simpl; now rewrite IH.
Qed.

Lemma keywords_sigma_free (kw : str) : In kw keywords -> sigma_free kw.
Proof.
  unfold keywords. simpl. intros H k Hk.
  repeat (destruct H as [<-|H];
          [vm_compute in Hk;
           repeat (destruct Hk as [<-|Hk]; [split; discriminate|]);
           contradiction|]).
  contradiction.
Qed.

Lemma existsb_ext_in {A : Type} (f g : A -> bool) (l : list A) :
  (forall x, In x l -> f x = g x) -> existsb f l = existsb g l.
Proof.
  induction l as [|x l IH]; intros H; [reflexivity|].
  simpl. rewrite (H x (or_introl eq_refl)), IH; [reflexivity|].
  intros y Hy. apply H. now right.
Qed.

(** X15.  The tests of the link extractor ignore case: two anchors whose
    text nodes and whose targets are equal once lower-cased are both
    retained or both dropped. *)
Theorem project_anchor_ignores_case (a b : Anchor) :
  map lower (strings a) = map lower (strings b) ->
  option_map lower (href a) = option_map lower (href b) ->
  project_anchor a = project_anchor b.
Proof.
  intros Htext Href. unfold project_anchor, wanted, has_href, link_href.
  assert (Hkw : existsb (fun keyword => contains (lower (get_text_strip a)) keyword)
                  keywords
                = existsb (fun keyword => contains (lower (get_text_strip b)) keyword)
                    keywords).
  { apply existsb_ext_in. intros kw Hin.
    pose proof (keywords_sigma_free Hin) as Hfree.
    rewrite <- (contains_unsigma (lower (get_text_strip a)) Hfree).
    rewrite <- (contains_unsigma (lower (get_text_strip b)) Hfree).
    rewrite !blur_get_text_strip.
    rewrite <- (map_map lower (map unsigma) (strings a)).
    rewrite <- (map_map lower (map unsigma) (strings b)).
    now rewrite Htext. }
  rewrite Hkw.
  destruct (href a) as [ha|], (href b) as [hb|]; simpl in Href;
    try discriminate Href; [|reflexivity].
  injection Href as Href. now rewrite Href.
Qed.


(* ================================================================== *)
(** ** The end of a run *)
(* ================================================================== *)

Lemma run_ends_with_write_output (E : Env) (mode : str) (s : State) :
  exists s3,
    run E mode s = write_output E s3 /\
    processed_data s3 = processed_data s /\
    exists more, all_bids s3 = all_bids s ++ more.
Proof.
  rewrite run_pipeline.
  assert (H : forall seeds cap,
             exists s3, pipeline E seeds cap s = write_output E s3 /\
                        processed_data s3 = processed_data s /\
                        exists more, all_bids s3 = all_bids s ++ more).
  { intros seeds cap. unfold pipeline.
    destruct (scan_frame E seeds [] s) as (_ & _ & Hab & Hpd).
    destruct (scan E seeds [] s) as [links s1]. cbn [snd] in Hab, Hpd.
    eexists. split; [reflexivity|].
    destruct (process_each_grows E
                match cap with
                | Some n => firstn n (unique_projects links)
                | None => unique_projects links
                end
                (logging Info (UniqueFound (length (unique_projects links))) s1))
      as (Hp & more & Hm).
    split; [rewrite Hp; exact Hpd|].
    exists more. rewrite Hm. simpl. now rewrite Hab. }
  destruct (str_eqb mode (lit "full")); apply H.
Qed.

(** X5.  A run writes at most one output table, and a table it writes
    is the concatenation of the whole collection.  Tables that were in
    the collection before the call stay there, in front of the new ones,
    and so are written out again. *)
Theorem run_writes_at_most_once (E : Env) (mode : str) (s : State) :
  let final := final_state (run E mode s) in
  (exists more, all_bids final = all_bids s ++ more) /\
  (processed_data final = processed_data s \/
   exists stamp df,
     concat (all_bids final) = Ok df /\
     processed_data final = processed_data s ++ [(stamp, df)]).
Proof.
  cbv zeta.
  destruct (run_ends_with_write_output E mode s) as (s3 & Hrun & Hpd & more & Hm).
  rewrite Hrun. destruct (write_output_end E s3) as (Ha & _ & Hend).
  rewrite Ha. split; [exists more; exact Hm|].
  destruct (write_output E s3) as [s'|e s']; cbn [final_state].
  - destruct (all_bids s3) as [|b bs].
    + left. now rewrite Hend.
    + right. destruct Hend as (stamp & df & Hc & Hp).
      exists stamp, df. split; [exact Hc | now rewrite Hp, Hpd].
  - left. destruct Hend as (_ & _ & Hp). now rewrite Hp.
Qed.

Lemma concat_ok_aligned (frames : list DataFrame) (df : DataFrame) :
  concat frames = Ok df -> frames <> [] /\ labels_aligned frames = true.
Proof.
  unfold concat, labels_aligned. destruct frames as [|f rest]; [discriminate|].
  intros H. split; [discriminate|].
  destruct (same_columns (f :: rest)); [reflexivity|].
  destruct (forallb (fun g => nodupb (columns g)) (f :: rest));
    [reflexivity | discriminate H].
Qed.

(** X16.  Whenever [run] returns with a collection that is not empty, it
    has written one output table that has as many rows as all the
    collected tables together and whose labels are exactly the labels of
    the collected tables. *)
Theorem run_output_rows (E : Env) (mode : str) (s s' : State) :
  run E mode s = Returned s' ->
  all_bids s' <> [] ->
  exists stamp df,
    processed_data s' = processed_data s ++ [(stamp, df)] /\
    length (rows df) = total_rows (all_bids s') /\
    (forall c, In c (columns df) <->
               exists g, In g (all_bids s') /\ In c (columns g)).
Proof.
  intros Hret Hne.
  destruct (run_ends_with_write_output E mode s) as (s3 & Hrun & Hpd & _).
  rewrite Hrun in Hret.
  destruct (write_output_end E s3) as (Ha & _ & Hend).
  rewrite Hret in Ha, Hend. cbn [final_state] in Ha. rewrite Ha in Hne |- *.
  destruct (all_bids s3) as [|b bs]; [congruence|].
  destruct Hend as (stamp & df & Hc & Hp).
  exists stamp, df. split; [now rewrite Hp, Hpd|].
  destruct (@concat_ok_aligned _ _ Hc) as (Hne' & Hal).
  destruct (@concat_aligned _ Hne' Hal) as (final & Hc' & Hrows & Hcols & _).
  rewrite Hc in Hc'. injection Hc' as <-. split; [exact Hrows | exact Hcols].
Qed.


(* ================================================================== *)
(** ** Documents that cannot be read *)
(* ================================================================== *)

(** X17.  A document whose download succeeds but on which the table
    extractor raises, or returns no table, is not fatal: [process_pdf]
    returns, the downloaded bytes stay stored under the project's file
    name, the collection is unchanged, and the last thing logged is an
    error (extractor raised) or a warning (no table). *)
Theorem process_pdf_unreadable
    (E : Env) (p : ProjectLink) (s : State) (r : Response) :
  fst (get_page_default E (url p) (logging Info (Processing (name p)) s)) = Some r ->
  tabula_read_pdf E (content r) = None \/ tabula_read_pdf E (content r) = Some [] ->
  all_bids (process_pdf E p s) = all_bids s /\
  dict_get (pdf_file_name (name p)) (raw_pdfs (process_pdf E p s))
    = Some (content r) /\
  exists earlier,
    trace (process_pdf E p s) =
    earlier ++ [match tabula_read_pdf E (content r) with
                | None => Log Error (TabulaFailed (pdf_file_name (name p)))
                | Some _ => Log Warning (NoTables (pdf_file_name (name p)))
                end].
Proof.
  intros Hget Htab. split; [|split].
  - destruct (process_pdf_stored E p s) as (stored & Hs & HF).
    unfold extracted_tables in HF. rewrite Hget in HF.
    assert (Hnil : filter accepted
                     match tabula_read_pdf E (content r) with
                     | Some tables => tables
                     | None => []
                     end = [])
      by (destruct Htab as [-> | ->]; reflexivity).
    rewrite Hnil in HF. inversion HF; subst. now rewrite Hs, app_nil_r.
  - rewrite process_pdf_raw_pdfs, Hget. now rewrite dict_get_set, str_eqb_refl.
  - unfold process_pdf.
    destruct (get_page_default E (url p) (logging Info (Processing (name p)) s))
      as [r0 s1] eqn:Hg. cbn [fst] in Hget. subst r0.
    assert (Ht : truthy r = true)
      by (apply (@get_page_default_truthy E (url p)
                   (logging Info (Processing (name p)) s)); now rewrite Hg).
    rewrite Ht. cbn [negb].
    assert (Hread : dict_get (pdf_file_name (name p))
                      (raw_pdfs (write_raw (pdf_file_name (name p))
                                   (content r) s1)) = Some (content r))
      by (cbn [raw_pdfs write_raw]; now rewrite dict_get_set, str_eqb_refl).
    rewrite Hread.
    destruct Htab as [-> | ->]; eexists; reflexivity.
Qed.


(* ================================================================== *)
(** ** Well-formed output *)
(* ================================================================== *)

Section WellFormedRun.

Variable E : Env.
Hypothesis Hextractor :
  forall bytes tables,
    tabula_read_pdf E bytes = Some tables -> Forall well_formed tables.

Lemma process_pdf_well_formed (p : ProjectLink) (s : State) :
  Forall well_formed (all_bids s) ->
  Forall well_formed (all_bids (process_pdf E p s)).
Proof.
  intros Hs. unfold process_pdf.
  destruct (get_page_default_frame E (url p) (logging Info (Processing (name p)) s))
    as (_ & _ & Hab & _).
  destruct (get_page_default E (url p) (logging Info (Processing (name p)) s))
    as [[r|] s1]; cbn [snd] in Hab; [|now rewrite Hab].
  destruct (negb (truthy r)); [now rewrite Hab|].
  assert (Hlog : forall l m t, all_bids (logging l m t) = all_bids t)
    by reflexivity.
  assert (Hw : Forall well_formed
                 (all_bids (write_raw (pdf_file_name (name p)) (content r) s1)))
    by (cbn [all_bids write_raw]; now rewrite Hab).
  destruct (dict_get _ _) as [bytes|]; [|now rewrite Hlog].
  destruct (tabula_read_pdf E bytes) as [[|t ts]|] eqn:Ht;
    rewrite Hlog; try exact Hw.
  apply collect_tables_well_formed_all; [exact (Hextractor _ Ht) | exact Hw].
Qed.

Lemma process_each_well_formed (ps : list ProjectLink) (s : State) :
  Forall well_formed (all_bids s) ->
  Forall well_formed (all_bids (process_each E ps s)).
Proof.
  revert s. induction ps as [|p rest IH]; intros s Hs; simpl; [exact Hs|].
  now apply IH, process_pdf_well_formed.
Qed.

End WellFormedRun.

(** X18.  When the table extractor only returns tables with one cell
    per header in every row, and the scraper starts from a collection and
    output files of that kind, then after [run] every collected table
    and every output table written is of that kind too: each row of the
    output has exactly one cell per output label. *)
Theorem run_output_well_formed (E : Env) (mode : str) (s : State) :
  (forall bytes tables,
      tabula_read_pdf E bytes = Some tables -> Forall well_formed tables) ->
  Forall well_formed (all_bids s) ->
  Forall (fun out => well_formed (snd out)) (processed_data s) ->
  Forall well_formed (all_bids (final_state (run E mode s))) /\
  Forall (fun out => well_formed (snd out))
    (processed_data (final_state (run E mode s))).
Proof.
  intros Hex Hs Hout. rewrite run_pipeline.
  assert (H : forall seeds cap,
    Forall well_formed (all_bids (final_state (pipeline E seeds cap s))) /\
    Forall (fun out => well_formed (snd out))
      (processed_data (final_state (pipeline E seeds cap s)))).
  { intros seeds cap. unfold pipeline.
    destruct (scan_frame E seeds [] s) as (_ & _ & Hab & Hpd).
    destruct (scan E seeds [] s) as [links s1]. cbn [snd] in Hab, Hpd.
    set (todo := match cap with
                 | Some n => firstn n (unique_projects links)
                 | None => unique_projects links
                 end).
    set (s2 := logging Info (UniqueFound (length (unique_projects links))) s1).
    assert (Hs2 : Forall well_formed (all_bids s2))
      by (unfold s2; simpl; now rewrite Hab).
    pose proof (@process_each_well_formed E Hex todo s2 Hs2) as Hs3.
    destruct (process_each_grows E todo s2) as (Hpd3 & _).
    destruct (write_output_end E (process_each E todo s2)) as (Ha & _ & Hend).
    split; [now rewrite Ha|].
    assert (Hold : Forall (fun out => well_formed (snd out))
                     (processed_data (process_each E todo s2)))
      by (rewrite Hpd3; unfold s2; simpl; now rewrite Hpd).
    destruct (write_output E (process_each E todo s2)) as [s'|e s'];
      cbn [final_state].
    - destruct (all_bids (process_each E todo s2)) as [|b bs] eqn:Hb.
      + now rewrite Hend.
      + destruct Hend as (stamp & df & Hc & Hp). rewrite Hp.
        apply Forall_app. split; [exact Hold|].
        constructor; [|constructor]. cbn [snd].
        exact (concat_well_formed Hs3 Hc).
    - destruct Hend as (_ & _ & Hp). now rewrite Hp. }
  destruct (str_eqb mode (lit "full")); apply H.
Qed.

End Verified.

(* ================================================================== *)
(** ** Evaluations *)
(* ================================================================== *)

(** From here on the functions are run on concrete inputs, with the
    tables [basic_tables]. *)

#[local] Existing Instance basic_tables.

Ltac cmp_cases :=
  repeat (match goal with
          | |- context [(?a <=? ?b)%N] => destruct (N.leb_spec a b)
          | |- context [(?a =? ?b)%N] => destruct (N.eqb_spec a b)
          | H : context [(?a <=? ?b)%N] |- _ => destruct (N.leb_spec a b)
          | H : context [(?a =? ?b)%N] |- _ => destruct (N.eqb_spec a b)
          end; try lia; cbn [andb orb negb] in *).

Lemma basic_lower_map_cases (c : char) :
  (c = 304%N /\ lower_map c = [105; 775]%N) \/
  (c = SIGMA /\ lower_map c = [SMALL_SIGMA]) \/
  (basic_upper c = true /\ lower_map c = [(c + 32)%N]) \/
  (c <> 304%N /\ c <> SIGMA /\ basic_upper c = false /\ lower_map c = [c]).
Proof.
  cbn [lower_map basic_tables].
  destruct (N.eqb_spec c 304); [now left|].
  destruct (N.eqb_spec c SIGMA); [now right; left|].
  destruct (basic_upper c); [now right; right; left | now right; right; right].
Qed.

Lemma basic_lower_map_fixed (c : char) :
  c <> 304%N -> c <> SIGMA -> basic_upper c = false -> lower_map c = [c].
Proof.
  intros H1 H2 H3. cbn [lower_map basic_tables].
  apply N.eqb_neq in H1, H2. now rewrite H1, H2, H3.
Qed.

Lemma basic_lawful : Lawful basic_tables.
Proof.
  constructor.
  - intros c Hc. cbn [lower_map basic_tables].
    unfold ascii_lower, basic_upper, between, SIGMA. cmp_cases; reflexivity.
  - intros c Hc. cbn [isalnum basic_tables].
    unfold ascii_alnum, basic_letter, between. cmp_cases; reflexivity.
  - intros c. destruct (basic_lower_map_cases c)
      as [(_ & ->)|[(_ & ->)|[(_ & ->)|(_ & _ & _ & ->)]]]; discriminate.
  - intros c c' Hin. unfold SIGMA, SMALL_SIGMA in *.
    destruct (basic_lower_map_cases c)
      as [(_ & H)|[(_ & H)|[(Hu & H)|(H1 & H2 & H3 & H)]]];
      rewrite H in Hin; simpl in Hin.
    + destruct Hin as [<-|[<-|[]]]; split; try discriminate; reflexivity.
    + destruct Hin as [<-|[]]. split; [discriminate | reflexivity].
    + destruct Hin as [<-|[]].
      assert (Hc : ((c + 32)%N <> 304%N /\ (c + 32)%N <> 931%N) /\ basic_upper (c + 32)%N = false).
      { unfold basic_upper, between in *. cmp_cases; (split; [lia | reflexivity]). }
      destruct Hc as ((Ha & Hb) & Hc).
      split; [exact Hb | now apply basic_lower_map_fixed].
    + destruct Hin as [<-|[]]. split; [exact H2 | exact H].
  - split; reflexivity.
  - intros c Hc. cbn [lower_map cased case_ignorable basic_tables].
    unfold isspace, basic_upper, basic_letter, between, SIGMA in *.
    cmp_cases; try discriminate Hc; repeat split.
  - intros c c' Hc Hin. unfold SIGMA, SMALL_SIGMA in *.
    destruct (basic_lower_map_cases c)
      as [(_ & H)|[(_ & H)|[(Hu & H)|(H1 & H2 & H3 & H)]]];
      rewrite H in Hin; simpl in Hin.
    + destruct Hin as [<-|[<-|[]]]; reflexivity.
    + destruct Hin as [<-|[]]. reflexivity.
    + destruct Hin as [<-|[]].
      unfold isspace, basic_upper, between in *. cmp_cases; reflexivity.
    + destruct Hin as [<-|[]]. exact Hc.
Qed.

#[local] Existing Instance basic_lawful.

(** Beyond ASCII: accented letters are word characters and are
    lower-cased, the no-break space U+00A0 is white space, the capital I
    with dot U+0130 becomes two code points, and the capital sigma
    becomes the final sigma at the end of a word. *)
Example pdf_file_name_keeps_accents :
  pdf_file_name (lit "Caf" ++ [233%N] ++ lit " Bid #3")
    = lit "Caf" ++ [233%N] ++ lit "_Bid_3.pdf" /\
  pdf_file_name (lit "A" ++ [160%N] ++ lit "B") = lit "A" ++ [160%N] ++ lit "B.pdf".
Proof. split; reflexivity. Qed.

Example clean_column_beyond_ascii :
  clean_column ([201; 84; 201]%N ++ lit " Bid" ++ [160%N])
    = [233; 116; 233]%N ++ lit "_bid" /\
  clean_column [304%N] = [105; 775]%N /\
  clean_column [927; 916; 927; 931]%N = [959; 948; 959; 962]%N /\
  clean_column [931; 927; 931]%N = [963; 959; 962]%N.
Proof. repeat split; reflexivity. Qed.

(* ================================================================== *)
(** ** Column headers and provenance labels, evaluated *)
(* ================================================================== *)

Lemma clean_column_keeps_runs_witness :
  clean_column (lit "Bid" ++ lit "  " ++ lit "Amount") = lit "bid__amount".
Proof.
  refine (proj2 (clean_column_keeps_runs
            {| name := lit "n"; url := lit "u"; source := lit "s" |}
            (lit "f.pdf") 0 0 plain_table
            (a := lit "Bid") (gap := lit "  ") (b := lit "Amount") _ _ _ _ _ _)).
  - discriminate.
  - discriminate.
  - discriminate.
  - repeat constructor.
  - repeat constructor.
  - repeat constructor; left; reflexivity.
Defined.

(** C3 as stated fails: a header with two spaces in a row keeps two
    underscores, where "whitespace-collapsed, underscore-joined" asks for
    one. *)
Lemma clean_column_does_not_collapse :
  clean_column (lit "Bid  Amount") = lit "bid__amount" /\
  spec_collapsed_header (lit "Bid  Amount") = lit "bid_amount" /\
  clean_column (lit "Bid  Amount") <> spec_collapsed_header (lit "Bid  Amount").
Proof.
  split; [reflexivity|]. split; [reflexivity|].
  intros H. vm_compute in H. discriminate H.
Qed.

Lemma clean_column_idempotent_witness :
  clean_column (clean_column ([201; 84; 201]%N ++ lit " Bid" ++ [160%N]))
    = [233; 116; 233]%N ++ lit "_bid".
Proof.
  rewrite (clean_column_idempotent ([201; 84; 201]%N ++ lit " Bid" ++ [160%N])).
  reflexivity.
Defined.

Lemma clean_column_shape_witness :
  lower (clean_column (lit " Total" ++ [13; 10]%N ++ lit "Bid "))
    = lit "total__bid".
Proof.
  destruct (clean_column_shape (lit " Total" ++ [13; 10]%N ++ lit "Bid "))
    as (_ & H & _).
  rewrite H. reflexivity.
Defined.

(** C2.  A 2-column, 3-row table should be kept with exactly five more
    columns, seven in all.  Evaluated on such a table whose first raw
    header is [project_name]: the table passes the test of line 96 and is
    kept, but with six columns, and the three values extracted under
    [project_name] are gone, the project's name standing in their
    place. *)
Lemma provenance_label_clash :
  length (columns clash_table) = 2 /\ length (rows clash_table) = 3 /\
  skipped clash_table = false /\
  exists st,
    all_bids (collect_tables silent_env some_project (lit "f.pdf") 0 [clash_table] init)
      = [st] /\
    columns st = map lit ["project_name"; "amount"; "source_url";
                          "pdf_source_file"; "pdf_table_index";
                          "scrape_timestamp"]%string /\
    length (columns st) <> length (columns clash_table) + 5 /\
    map (fun r => cell_under (columns clash_table) r (lit "project_name"))
      (rows clash_table)
      = map (fun v => CStr (lit v))
          ["US 70 widening"; "NC 12 bridge"; "I-40 paving"]%string /\
    map (fun r => cell_under (columns st) r (lit "project_name")) (rows st)
      = repeat (CStr (name some_project)) 3.
Proof.
  split; [reflexivity|]. split; [reflexivity|]. split; [reflexivity|].
  eexists. split; [reflexivity|]. split; [reflexivity|].
  split; [vm_compute; discriminate|]. split; reflexivity.
Qed.

(** The table of the spec's example: two ordinary headers, three rows. *)
Example plain_table_gets_seven_columns :
  exists st,
    all_bids (collect_tables silent_env some_project (lit "f.pdf") 0
                [plain_table] init) = [st] /\
    columns st = map lit ["bidder"; "total_bid"; "project_name"; "source_url";
                          "pdf_source_file"; "pdf_table_index";
                          "scrape_timestamp"]%string /\
    length (rows st) = 3.
Proof. eexists. repeat split. Qed.

Lemma annotate_appends_provenance_witness :
  rows (annotate some_project (lit "f.pdf") 3 7 plain_table) =
  map (fun r => r ++ provenance_cells some_project (lit "f.pdf") 3 7)
    (rows plain_table).
Proof.
  refine (proj1 (@annotate_appends_provenance _ _ some_project (lit "f.pdf") 3 7
                   plain_table _)).
  intros l Hl Hin. simpl in Hl, Hin.
  repeat (destruct Hl as [<-|Hl];
          [repeat (destruct Hin as [Hin|Hin]; [discriminate Hin|]);
           contradiction|]).
  contradiction.
Defined.

Lemma table_index_counts_discarded_witness :
  In (annotate some_project (lit "f.pdf") 1 (now silent_env 0) plain_table)
     (all_bids (collect_tables silent_env some_project (lit "f.pdf") 0
                  ([one_column_table] ++ plain_table :: []) init)).
Proof.
  refine (proj1 (@table_index_counts_discarded _ _ silent_env some_project
                   (lit "f.pdf") [one_column_table] [] plain_table init _)).
  reflexivity.
Defined.

(* ================================================================== *)
(** ** File names, evaluated *)
(* ================================================================== *)

Lemma pdf_file_name_persisted_witness :
  dict_get (lit "Bid_RoadBridge_Final.pdf")
    (raw_pdfs (process_pdf unreadable_env some_project init)) = Some (lit "%PDF").
Proof.
  destruct (pdf_file_name_persisted unreadable_env some_project init) as (H & _).
  rewrite H. reflexivity.
Defined.

Lemma pdf_file_name_safe_witness :
  ~ In SLASH (pdf_file_name (name some_project)) /\
  ~ In SP (pdf_file_name (name some_project)).
Proof.
  destruct (pdf_file_name_safe (name some_project))
    as (stem & _ & _ & _ & _ & H1 & H2).
  split; [exact H1 | exact H2].
Defined.

Lemma colliding_names_overwrite_witness :
  name project_a <> name project_b /\
  dict_get (lit "Bid_A.pdf")
    (raw_pdfs (process_each (demo_env plain_table plain_table)
                 [project_a; project_b] init)) = Some (lit "B").
Proof.
  split; [discriminate|].
  refine (proj1 (@colliding_names_overwrite _ (demo_env plain_table plain_table)
                   project_a project_b init
                   {| status_code := 200; content := lit "B" |} _ _)).
  - reflexivity.
  - vm_compute. reflexivity.
Defined.

Lemma process_pdf_unreadable_witness :
  all_bids (process_pdf unreadable_env some_project init) = [] /\
  dict_get (lit "Bid_RoadBridge_Final.pdf")
    (raw_pdfs (process_pdf unreadable_env some_project init)) = Some (lit "%PDF").
Proof.
  destruct (@process_pdf_unreadable _ _ unreadable_env some_project init
              {| status_code := 200; content := lit "%PDF" |})
    as (H1 & H2 & _).
  - reflexivity.
  - left. reflexivity.
  - split; [exact H1 | exact H2].
Defined.

(* ================================================================== *)
(** ** The fetcher and the link extractor, evaluated *)
(* ================================================================== *)

Lemma get_page_first_success_witness :
  fst (get_page (flaky_env 2) (lit "https://example.org/") 3 2 init)
    = Some {| status_code := 200; content := lit "ok" |} /\
  requests (snd (get_page (flaky_env 2) (lit "https://example.org/") 3 2 init)) = 3.
Proof.
  destruct (@get_page_first_success (flaky_env 2) (lit "https://example.org/")
              3 2 init 2 {| status_code := 200; content := lit "ok" |})
    as (H1 & H2 & _).
  - lia.
  - intros k Hk. simpl. destruct k as [|[|k]]; [reflexivity | reflexivity | lia].
  - reflexivity.
  - reflexivity.
  - split; [exact H1 | exact H2].
Defined.

Lemma project_anchor_ignores_case_witness :
  project_anchor shouting_anchor = project_anchor quiet_anchor /\
  project_anchor quiet_anchor = true.
Proof.
  split; [|reflexivity].
  apply project_anchor_ignores_case; reflexivity.
Defined.

Lemma documents_come_from_seeds_witness :
  exists p,
    In p (documents (demo_env plain_table plain_table) (firstn 1 base_urls)
            (Some 5) init) /\
    In (source p) (firstn 1 base_urls).
Proof.
  eexists. split; [left; reflexivity|].
  refine (proj2 (@documents_come_from_seeds _ (demo_env plain_table plain_table)
                   (firstn 1 base_urls) (Some 5) init _ _)).
  left. reflexivity.
Defined.

(* ================================================================== *)
(** ** Whole runs, evaluated *)
(* ================================================================== *)

Lemma write_output_rows_witness :
  labels_aligned (all_bids two_tables_state) = true /\
  exists final, length (rows final) = 4.
Proof.
  split; [reflexivity|].
  pose proof (@write_output_rows silent_env two_tables_state eq_refl) as H.
  vm_compute in H. destruct H as (final & _ & Hrows & _).
  exists final. exact Hrows.
Defined.

(** C7.  A run with a non-empty collection should write exactly one
    output table holding all collected rows.  Evaluated on a page that
    links two documents with one table each, the first with a raw header
    [Project Name] (stored as a second [project_name] label next to the
    provenance one): [pandas.concat] raises, [run] is aborted, and the
    two collected tables are not written anywhere. *)
Lemma concat_refuses_repeated_label :
  exists s,
    run (demo_env named_table plain_table) (lit "full") init
      = Raised InvalidIndexError s /\
    length (all_bids s) = 2 /\
    processed_data s = [].
Proof. eexists. split; [vm_compute; reflexivity|]. split; reflexivity. Qed.

Lemma run_other_mode_is_test_witness :
  run (demo_env plain_table plain_table) (lit "FULL") init
    = run (demo_env plain_table plain_table) (lit "test") init.
Proof.
  refine (proj1 (@run_other_mode_is_test _
                   (demo_env plain_table plain_table) (lit "FULL") init _)).
  intros H. discriminate H.
Defined.

Lemma run_when_nothing_answers_witness :
  exists s',
    run silent_env (lit "full") init = Returned s' /\
    requests s' = 21 /\ processed_data s' = [].
Proof.
  destruct (@run_when_nothing_answers _ silent_env (lit "full") init)
    as (s' & H1 & _ & _ & H4 & H5).
  - intros n u. reflexivity.
  - reflexivity.
  - exists s'. split; [exact H1|]. split; [exact H5 | exact H4].
Defined.

Lemma run_writes_at_most_once_witness :
  length (processed_data
            (final_state (run (demo_env plain_table plain_table) (lit "test") init)))
    <= 1.
Proof.
  pose proof (run_writes_at_most_once (demo_env plain_table plain_table)
                (lit "test") init) as H.
  cbv zeta in H. destruct H as (_ & [H | (stamp & df & _ & H)]); rewrite H.
  - apply Nat.le_0_l.
  - apply Nat.le_refl.
Defined.

Lemma run_output_rows_witness :
  exists stamp df,
    processed_data
      (final_state (run (demo_env plain_table plain_table) (lit "test") init))
      = [(stamp, df)] /\
    length (rows df) = 6.
Proof.
  destruct (run (demo_env plain_table plain_table) (lit "test") init)
    as [s'|e s'] eqn:Hrun.
  - destruct (@run_output_rows _ _ _ _ _ _ Hrun) as (stamp & df & Hp & Hrows & _).
    + vm_compute in Hrun. injection Hrun as <-. discriminate.
    + exists stamp, df. split; [exact Hp|]. rewrite Hrows.
      vm_compute in Hrun. injection Hrun as <-. reflexivity.
  - vm_compute in Hrun. discriminate Hrun.
Defined.

Lemma run_output_well_formed_witness :
  Forall (fun out => well_formed (snd out))
    (processed_data
       (final_state (run (demo_env clash_table plain_table) (lit "test") init))).
Proof.
  refine (proj2 (@run_output_well_formed _ _ (demo_env clash_table plain_table)
                   (lit "test") init _ _ _)).
  - intros bytes tables. unfold demo_env. cbn [tabula_read_pdf].
    destruct (str_eqb bytes (lit "A")).
    + intros H. injection H as <-. repeat constructor.
    + destruct (str_eqb bytes (lit "B")); [|discriminate].
      intros H. injection H as <-. repeat constructor.
  - constructor.
  - constructor.
Defined.
